(** * sopel.irc.backends: the asyncio IRC backend

    A shallow embedding of [src/sopel/irc/backends.py]: the line framer
    ([collect_incoming_data], [found_terminator], [data_received]), the
    connection life cycle ([initiate_connect], [handle_connect],
    [handle_close]), the two watchdog jobs ([_send_ping], [_check_timeout])
    and the legacy TLS hostname check ([IRCProtocol.handle_connect]).

    Conventions.
    - A Python [bytes] value is a [list byte]; a Python [str] is the list of
      its Unicode code points ([list N]).
    - A [datetime] is a number of microseconds ([Z]); [total_seconds] turns a
      difference into a rational number of seconds.  Python floats are read
      as the rationals they denote.
    - Methods are state transformers over the backend's attributes and the
      outside world (the trace of calls made on the bot, the transport, the
      scheduler and the operating system, and the clock).  A raised
      exception keeps the state reached so far, as in Python. *)

From Stdlib Require Import List Bool NArith ZArith QArith Lia String.
From Stdlib Require Import Strings.Byte.
Import ListNotations.

Close Scope Q_scope.
Open Scope string_scope.
Open Scope list_scope.

Set Implicit Arguments.

(** ** Text *)

Module Text.

(** A code point and a Python [str]. *)
Definition char := N.
Definition str := list char.

Definition LF : char := 10%N.   (* '\n' *)
Definition CR : char := 13%N.   (* '\r' *)

(** [c in s] for a one-character [c]. *)
Definition contains (c : char) (s : str) : bool := existsb (N.eqb c) s.

(** [s.split(c, 1)]: one element when [c] does not occur, otherwise the
    text before the first [c] and the text after it. *)
Fixpoint split1 (c : char) (s : str) : list str :=
  match s with
  | [] => [[]]
  | x :: r =>
      if N.eqb x c then [[]; r]
      else match split1 c r with
           | h :: t => (x :: h) :: t
           | [] => []
           end
  end.

(** [s.endswith(c)] for a one-character [c]. *)
Fixpoint endswith (c : char) (s : str) : bool :=
  match s with
  | [] => false
  | [x] => N.eqb x c
  | _ :: r => endswith c r
  end.

(** [s[:-1]]. *)
Definition drop_last (s : str) : str := removelast s.

(** Truth value of a [str]: non-empty. *)
Definition truthy (s : str) : bool :=
  match s with [] => false | _ => true end.

End Text.
Import Text.

(** ** The three codecs tried by [collect_incoming_data]

    [unicode(data, encoding=...)] is [str(data, encoding=...)] with strict
    error handling: the whole chunk decodes or [UnicodeDecodeError] is raised
    ([None] here). *)

Module Codec.

Definition bytes := list byte.

Definition ord (b : byte) : N := Byte.to_N b.

(** A UTF-8 continuation byte, 0x80..0xBF. *)
Definition is_cont (b : byte) : bool :=
  (128 <=? ord b)%N && (ord b <=? 191)%N.

Definition in_range (lo hi : N) (b : byte) : bool :=
  (lo <=? ord b)%N && (ord b <=? hi)%N.

(** Payload bits of a continuation byte. *)
Definition low6 (b : byte) : N := N.land (ord b) 63.

(** The range allowed for the second byte after a three-byte lead:
    0xE0 excludes overlong forms, 0xED excludes surrogates. *)
Definition second_of_3 (lead : N) : N * N :=
  if (lead =? 224)%N then (160, 191)%N
  else if (lead =? 237)%N then (128, 159)%N
  else (128, 191)%N.

(** Likewise after a four-byte lead: 0xF0 excludes overlong forms, 0xF4
    stops at U+10FFFF. *)
Definition second_of_4 (lead : N) : N * N :=
  if (lead =? 240)%N then (144, 191)%N
  else if (lead =? 244)%N then (128, 143)%N
  else (128, 191)%N.

(** Strict UTF-8. *)
Fixpoint utf8 (bs : bytes) : option str :=
  match bs with
  | [] => Some []
  | b0 :: r0 =>
      let n0 := ord b0 in
      if (n0 <? 128)%N then
        option_map (cons n0) (utf8 r0)
      else if in_range 194 223 b0 then
        match r0 with
        | b1 :: r1 =>
            if is_cont b1 then
              option_map
                (cons (N.lor (N.shiftl (N.land n0 31) 6) (low6 b1)))
                (utf8 r1)
            else None
        | _ => None
        end
      else if in_range 224 239 b0 then
        match r0 with
        | b1 :: b2 :: r2 =>
            let (lo, hi) := second_of_3 n0 in
            if in_range lo hi b1 && is_cont b2 then
              option_map
                (cons (N.lor (N.shiftl (N.land n0 15) 12)
                         (N.lor (N.shiftl (low6 b1) 6) (low6 b2))))
                (utf8 r2)
            else None
        | _ => None
        end
      else if in_range 240 244 b0 then
        match r0 with
        | b1 :: b2 :: b3 :: r3 =>
            let (lo, hi) := second_of_4 n0 in
            if in_range lo hi b1 && is_cont b2 && is_cont b3 then
              option_map
                (cons (N.lor (N.shiftl (N.land n0 7) 18)
                         (N.lor (N.shiftl (low6 b1) 12)
                            (N.lor (N.shiftl (low6 b2) 6) (low6 b3)))))
                (utf8 r3)
            else None
        | _ => None
        end
      else None
  end.

(** Windows-1252: the code points of 0x80..0x9F, five of which are
    undefined; every other byte is its own code point. *)
Definition cp1252_high : list (option N) :=
  [ Some 8364; None;      Some 8218; Some 402;  Some 8222; Some 8230;
    Some 8224; Some 8225; Some 710;  Some 8240; Some 352;  Some 8249;
    Some 338;  None;      Some 381;  None;
    None;      Some 8216; Some 8217; Some 8220; Some 8221; Some 8226;
    Some 8211; Some 8212; Some 732;  Some 8482; Some 353;  Some 8250;
    Some 339;  None;      Some 382;  Some 376 ]%N.

Definition cp1252_char (b : byte) : option char :=
  let n := ord b in
  if in_range 128 159 b
  then nth (N.to_nat (n - 128)) cp1252_high None
  else Some n.

Fixpoint cp1252 (bs : bytes) : option str :=
  match bs with
  | [] => Some []
  | b :: r =>
      match cp1252_char b with
      | Some c => option_map (cons c) (cp1252 r)
      | None => None
      end
  end.

(** ISO 8859-1: every byte is its own code point. *)
Definition iso8859_1 (bs : bytes) : option str := Some (map ord bs).

End Codec.
Import Codec.

(** ** World, backend and the monad of methods *)

Definition datetime := Z.      (* microseconds *)
Definition timedelta := Z.     (* microseconds *)
Definition transport_id := nat.

(** [timedelta.total_seconds()]. *)
Definition total_seconds (dt : timedelta) : Q := Qmake dt 1000000.

(** The exceptions that the module raises or catches.  [socket.error] is an
    alias of [OSError]. *)
Inductive exn : Type :=
| OSError
| CertificateError
| TypeError
| ValueError
| AttributeError.

Definition exn_eqb (a b : exn) : bool :=
  match a, b with
  | OSError, OSError | CertificateError, CertificateError
  | TypeError, TypeError | ValueError, ValueError
  | AttributeError, AttributeError => true
  | _, _ => false
  end.

(** Calls made on the collaborators, in the order they are made.  Calls on
    [LOGGER] are not traced. *)
Inductive event : Type :=
| LogRaw (data : str)                  (* bot.log_raw(data, '<<') *)
| OnMessage (line : str)               (* bot.on_message(line) *)
| OnConnect                            (* bot.on_connect() *)
| OnClose                              (* bot.on_close() *)
| OnError                              (* bot.on_error() *)
| SchedulerStart                       (* timeout_scheduler.start() *)
| SchedulerStop                        (* timeout_scheduler.stop() *)
| TransportClose (t : transport_id)    (* transport.close() *)
| TransportWrite (t : transport_id) (data : bytes)  (* transport.write(data) *)
| SendPing (host : option string)      (* backend.send_ping(host) *)
| SetSocket                            (* self.set_socket(self.ssl) *)
| Unlink (path : string).              (* os.unlink(path) *)

(** The outside world: the trace so far, the clock ([utcnow] returns
    [clock reads] and counts the reading), and whether [send_ping] fails
    with [socket.error]. *)
Record world : Type := mkWorld {
  trace : list event;
  clock : nat -> datetime;
  reads : nat;
  ping_raises : bool
}.

(** The attributes set by [AsynchatBackend.__init__]. *)
Record backend : Type := mkBackend {
  buffer : str;
  server_timeout : Q;
  ping_interval : Q;
  last_event_at : option datetime;
  last_ping_at : option datetime;
  host : option string;
  port : option Z;
  source_address : option string;
  transport : option transport_id;
  protocol : option unit;
  _connected : bool
}.

Definition state : Type := backend * world.

Inductive outcome (A : Type) : Type :=
| Ret (a : A)            (* normal return *)
| Raise (e : exn)        (* an exception leaves the method *)
| Exit (code : Z)        (* os._exit(code) *)
| OutOfFuel.             (* the model's loop bound was reached *)
Arguments Raise {A} e.
Arguments Exit {A} code.
Arguments OutOfFuel {A}.

Definition M (A : Type) : Type := state -> outcome A * state.

Definition ret {A} (a : A) : M A := fun s => (Ret a, s).

Definition bind {A B} (m : M A) (k : A -> M B) : M B :=
  fun s =>
    match m s with
    | (Ret a, s') => k a s'
    | (Raise e, s') => (Raise e, s')
    | (Exit c, s') => (Exit c, s')
    | (OutOfFuel, s') => (OutOfFuel, s')
    end.

Definition raise {A} (e : exn) : M A := fun s => (Raise e, s).

(** [try: m  except cls: h]. *)
Definition try_except {A} (m : M A) (cls : exn) (h : M A) : M A :=
  fun s =>
    match m s with
    | (Raise e, s') => if exn_eqb e cls then h s' else (Raise e, s')
    | r => r
    end.

(** [try: m  except cls: h  except Exception: h_any]. *)
Definition try_except_else {A} (m : M A) (cls : exn) (h h_any : M A) : M A :=
  fun s =>
    match m s with
    | (Raise e, s') => if exn_eqb e cls then h s' else h_any s'
    | r => r
    end.

Declare Scope py_scope.
Delimit Scope py_scope with py.
Notation "x <- m ;; k" := (bind m (fun x => k))
  (at level 61, m at next level, right associativity) : py_scope.
Notation "m ;; k" := (bind m (fun _ => k))
  (at level 61, right associativity) : py_scope.
Open Scope py_scope.

Definition get_self : M backend := fun s => (Ret (fst s), s).
Definition set_self (f : backend -> backend) : M unit :=
  fun s => (Ret tt, (f (fst s), snd s)).

Definition emit (e : event) : M unit :=
  fun s =>
    let w := snd s in
    (Ret tt, (fst s, mkWorld (trace w ++ [e]) (clock w) (reads w) (ping_raises w))).

(** [datetime.datetime.utcnow()]. *)
Definition utcnow : M datetime :=
  fun s =>
    let w := snd s in
    (Ret (clock w (reads w)),
     (fst s, mkWorld (trace w) (clock w) (S (reads w)) (ping_raises w))).

(** Attribute assignments. *)
Definition with_buffer (v : str) (b : backend) : backend :=
  mkBackend v (server_timeout b) (ping_interval b) (last_event_at b)
    (last_ping_at b) (host b) (port b) (source_address b) (transport b)
    (protocol b) (_connected b).

Definition with_last_event_at (v : option datetime) (b : backend) : backend :=
  mkBackend (buffer b) (server_timeout b) (ping_interval b) v
    (last_ping_at b) (host b) (port b) (source_address b) (transport b)
    (protocol b) (_connected b).

Definition with_last_ping_at (v : option datetime) (b : backend) : backend :=
  mkBackend (buffer b) (server_timeout b) (ping_interval b) (last_event_at b)
    v (host b) (port b) (source_address b) (transport b)
    (protocol b) (_connected b).

Definition with_target (h : string) (p : Z) (a : string) (b : backend) : backend :=
  mkBackend (buffer b) (server_timeout b) (ping_interval b) (last_event_at b)
    (last_ping_at b) (Some h) (Some p) (Some a) (transport b)
    (protocol b) (_connected b).

Definition with_transport (v : option transport_id) (b : backend) : backend :=
  mkBackend (buffer b) (server_timeout b) (ping_interval b) (last_event_at b)
    (last_ping_at b) (host b) (port b) (source_address b) v
    (protocol b) (_connected b).

Definition with_protocol (v : option unit) (b : backend) : backend :=
  mkBackend (buffer b) (server_timeout b) (ping_interval b) (last_event_at b)
    (last_ping_at b) (host b) (port b) (source_address b) (transport b)
    v (_connected b).

Definition with_connected (v : bool) (b : backend) : backend :=
  mkBackend (buffer b) (server_timeout b) (ping_interval b) (last_event_at b)
    (last_ping_at b) (host b) (port b) (source_address b) (transport b)
    (protocol b) v.

(** Python's [x or d] on an optional number: [None] and zero are false. *)
Definition py_or (x : option Q) (d : Q) : Q :=
  match x with
  | Some v => if Qeq_bool v 0 then d else v
  | None => d
  end.

(** [a - b] on datetimes, where [b] may be [None]. *)
Definition datetime_sub (a : datetime) (b : option datetime) : M timedelta :=
  match b with
  | Some t => ret (a - t)%Z
  | None => raise TypeError
  end.

(** [x > y] on numbers. *)
Definition Qgt_bool (x y : Q) : bool := negb (Qle_bool x y).

(** [max(events)] on a list of datetimes. *)
Definition py_max (l : list datetime) : M datetime :=
  match l with
  | [] => raise ValueError
  | x :: r => ret (fold_left Z.max r x)
  end.

(** [str(data, encoding=enc)] for the three encodings in use. *)
Inductive encoding : Type := UTF_8 | CP1252 | ISO8859_1.

Definition unicode (data : bytes) (enc : encoding) : option str :=
  match enc with
  | UTF_8 => utf8 data
  | CP1252 => cp1252 data
  | ISO8859_1 => iso8859_1 data
  end.

(** The result of [loop.create_connection]. *)
Inductive connect_result : Type :=
| Connected (t : transport_id)
| SocketError                 (* socket.error *)
| OtherError (e : exn).       (* any other Exception *)

Module AsynchatBackend.

(** [__init__(bot, server_timeout=None, ping_interval=None)].  The two
    jobs are registered on the scheduler, which is outside the backend. *)
Definition __init__ (server_timeout ping_interval : option Q) : backend :=
  let st := py_or server_timeout (120 # 1) in
  {| buffer := [];
     server_timeout := st;
     ping_interval := py_or ping_interval (st * (45 # 100))%Q;
     last_event_at := None;
     last_ping_at := None;
     host := None;
     port := None;
     source_address := None;
     transport := None;
     protocol := None;
     _connected := false |}.

Definition is_connected : M bool :=
  b <- get_self ;; ret (_connected b).

Definition handle_connect : M unit :=
  emit SchedulerStart ;;
  emit OnConnect.

Definition handle_close : M unit :=
  emit SchedulerStop ;;
  b <- get_self ;;
  match transport b with
  | Some t =>
      emit (TransportClose t) ;;
      set_self (with_transport None)
  | None => ret tt
  end ;;
  set_self (with_connected false) ;;
  emit OnClose.

Definition handle_error : M unit :=
  emit OnError.

(** [irc_send(data)], under the writing lock; without a transport only a
    warning is logged. *)
Definition irc_send (data : bytes) : M unit :=
  b <- get_self ;;
  match transport b with
  | Some t => emit (TransportWrite t data)
  | None => ret tt
  end.

Definition connection_made (t : transport_id) : M unit :=
  set_self (with_transport (Some t)) ;;
  handle_connect.

Definition connection_lost : M unit :=
  handle_close.

(** [loop.create_connection(lambda: IRCProtocol(self), ...)]: on success
    asyncio builds the protocol, calls its [connection_made] (which
    forwards to the backend's) and returns the transport and the
    protocol; on failure it raises. *)
Definition create_connection (res : connect_result) : M transport_id :=
  match res with
  | Connected t => connection_made t ;; ret t
  | SocketError => raise OSError
  | OtherError e => raise e
  end.

Definition initiate_connect (res : connect_result)
    (h : string) (p : Z) (a : string) : M unit :=
  set_self (with_target h p a) ;;
  try_except_else
    (t <- create_connection res ;;
     set_self (with_transport (Some t)) ;;
     set_self (with_protocol (Some tt)) ;;
     set_self (with_connected true))
    OSError
    handle_close      (* except socket.error *)
    handle_close.     (* except Exception *)

Definition collect_incoming_data (data : bytes) : M unit :=
  let continue (text : str) : M unit :=
    (if truthy text then emit (LogRaw text) else ret tt) ;;
    set_self (fun b => with_buffer (buffer b ++ text) b) ;;
    now <- utcnow ;;
    set_self (with_last_event_at (Some now))
  in
  match unicode data UTF_8 with
  | Some text => continue text
  | None =>
      match unicode data CP1252 with
      | Some text => continue text
      | None =>
          match unicode data ISO8859_1 with
          | Some text => continue text
          | None => ret tt     (* discard the chunk *)
          end
      end
  end.

Definition found_terminator : M unit :=
  b <- get_self ;;
  let line := buffer b in
  let line := if endswith CR line then drop_last line else line in
  set_self (with_buffer []) ;;
  emit (OnMessage line).

(** The [while] loop of [data_received]; each round removes at least the
    terminator from the buffer, so [fuel] above the buffer's length is
    never used up. *)
Fixpoint data_received_loop (fuel : nat) : M unit :=
  b <- get_self ;;
  if contains LF (buffer b) then
    match fuel with
    | O => fun s => (OutOfFuel, s)
    | S fuel' =>
        match split1 LF (buffer b) with
        | [line; rest] =>
            set_self (with_buffer rest) ;;
            found_terminator ;;
            data_received_loop fuel'
        | _ => raise ValueError
        end
    end
  else ret tt.

Definition data_received (data : bytes) : M unit :=
  collect_incoming_data data ;;
  b <- get_self ;;
  data_received_loop (S (List.length (buffer b))).

(** Modelled from the spec: [discard_buffers] is not defined in this
    module; the spec has the timeout path "discard any buffered partial
    line". *)
Definition discard_buffers : M unit :=
  set_self (with_buffer []).

(** Modelled from the spec: [send_ping] is inherited from the abstract
    backend, which this module only imports; the spec has it send a PING
    with the given payload, and has a transport error while sending logged
    and swallowed by the job, so the call may raise [socket.error]. *)
Definition send_ping (h : option string) : M unit :=
  fun s =>
    if ping_raises (snd s) then (Raise OSError, s)
    else emit (SendPing h) s.

Definition on_scheduler_error : M unit := handle_close.
Definition on_job_error : M unit := handle_close.

(** [on_irc_error(pretrigger)]; [hasquit] is [self.bot.hasquit]. *)
Definition on_irc_error (hasquit : bool) : M unit :=
  if hasquit then
    discard_buffers ;;
    handle_close
  else ret tt.

End AsynchatBackend.
Import AsynchatBackend.

(** ** The watchdog jobs *)

Definition _send_ping : M unit :=
  connected <- is_connected ;;
  if negb connected then ret tt
  else
    b <- get_self ;;
    let events := [] in
    let events :=
      match last_event_at b with Some t => events ++ [t] | None => events end in
    let events :=
      match last_ping_at b with Some t => events ++ [t] | None => events end in
    need_ping <-
      match events with
      | [] => ret true
      | _ =>
          last_event <- py_max events ;;
          now <- utcnow ;;
          let time_passed := total_seconds (now - last_event)%Z in
          ret (Qgt_bool time_passed (ping_interval b))
      end ;;
    if need_ping then
      try_except
        (send_ping (host b) ;;
         now <- utcnow ;;
         set_self (with_last_ping_at (Some now)))
        OSError
        (ret tt)
    else ret tt.

Definition _check_timeout : M unit :=
  connected <- is_connected ;;
  if negb connected then ret tt
  else
    b <- get_self ;;
    now <- utcnow ;;
    dt <- datetime_sub now (last_event_at b) ;;
    let time_passed := total_seconds dt in
    if Qgt_bool time_passed (server_timeout b) then
      discard_buffers ;;
      handle_close
    else ret tt.

(** ** The SSL backend *)

Module SSLAsynchatBackend.

(** [ssl.CERT_NONE] and [ssl.CERT_REQUIRED]. *)
Inductive verify_mode : Type := CERT_NONE | CERT_REQUIRED.

(** The two settings of an [ssl.SSLContext] that the backend touches. *)
Record ssl_context : Type := mkContext {
  check_hostname : bool;
  verify : verify_mode
}.

(** The attributes added by [SSLAsynchatBackend.__init__] ([self.ssl]
    stays [None]). *)
Record attrs : Type := mkAttrs {
  verify_ssl : bool;
  ca_certs : option string
}.

(** The answers of the [ssl] module and of the event loop: whether loading
    the CA file fails, and the result of a connection attempt made with a
    given context. *)
Record ssl_world : Type := mkSslWorld {
  cafile_raises : bool;
  attempt : ssl_context -> connect_result
}.

(** [__init__(bot, verify_ssl=True, ca_certs=None, **kwargs)]; [None] for
    [verify_ssl] stands for an omitted argument. *)
Definition __init__ (verify_ssl : option bool) (ca_certs : option string)
    (server_timeout ping_interval : option Q) : attrs * backend :=
  (mkAttrs (match verify_ssl with Some v => v | None => true end) ca_certs,
   AsynchatBackend.__init__ server_timeout ping_interval).

(** [ssl.create_default_context(purpose=ssl.Purpose.SERVER_AUTH,
    cafile=...)]: a verifying context; a given CA file that cannot be
    loaded raises an [OSError]. *)
Definition create_default_context (env : ssl_world) (cafile : option string)
    : M ssl_context :=
  match cafile with
  | Some _ =>
      if cafile_raises env then raise OSError
      else ret (mkContext true CERT_REQUIRED)
  | None => ret (mkContext true CERT_REQUIRED)
  end.

(** [context.check_hostname = v]: enabling the check on a context that does
    not verify switches verification on. *)
Definition set_check_hostname (v : bool) (c : ssl_context) : M ssl_context :=
  ret (mkContext v (if v then CERT_REQUIRED else verify c)).

(** [context.verify_mode = m]: [CERT_NONE] is refused with [ValueError]
    while the hostname check is enabled. *)
Definition set_verify_mode (m : verify_mode) (c : ssl_context)
    : M ssl_context :=
  match m with
  | CERT_NONE =>
      if check_hostname c then raise ValueError
      else ret (mkContext false CERT_NONE)
  | CERT_REQUIRED => ret (mkContext (check_hostname c) CERT_REQUIRED)
  end.

Definition initiate_connect (self_ssl : attrs) (env : ssl_world)
    (h : string) (p : Z) (a : string) : M unit :=
  set_self (with_target h p a) ;;
  ssl_context <- create_default_context env (ca_certs self_ssl) ;;
  ssl_context <-
    (if verify_ssl self_ssl then set_check_hostname true ssl_context
     else
       c <- set_check_hostname false ssl_context ;;
       set_verify_mode CERT_NONE c) ;;
  try_except_else
    (t <- create_connection (attempt env ssl_context) ;;
     set_self (with_transport (Some t)) ;;
     set_self (with_protocol (Some tt)) ;;
     set_self (with_connected true))
    OSError
    handle_close      (* except socket.error *)
    handle_close.     (* except Exception *)

End SSLAsynchatBackend.

(** ** The protocol object and the legacy TLS check *)

(** The answers of the [ssl] module, of [get_cnames], of the settings and
    of [os] on which a TLS connection depends. *)
Record tls_env : Type := mkTlsEnv {
  handshake_raises : bool;              (* the handshake fails for a reason
                                           other than the host name *)
  cert_matches : option string -> bool; (* the peer certificate is valid
                                           for the name *)
  cnames : list string;                 (* get_cnames(self.host) *)
  load_raises : bool;                   (* loading the CA file raises OSError *)
  pid_file_path : option string;        (* settings.core.pid_file_path, if set *)
  unlink_raises : bool                  (* os.unlink raises OSError *)
}.

(** A TLS handshake with [server_hostname]: besides failing on its own, it
    fails when the context checks the hostname and the peer certificate is
    not valid for that name ([ssl.SSLCertVerificationError], an
    [OSError]). *)
Definition handshake_fails (env : tls_env)
    (context : SSLAsynchatBackend.ssl_context)
    (server_hostname : option string) : bool :=
  handshake_raises env
  || (SSLAsynchatBackend.check_hostname context
      && negb (cert_matches env server_hostname)).

Module IRCProtocol.

(** The attributes of the former SSL dispatcher that [handle_connect]
    reads on [self] ([socket], [host], [bot], [timeout_scheduler],
    [set_socket] and [handle_close] come with them and are those of the
    backend). *)
Record legacy_attrs : Type := mkLegacy {
  verify_ssl : bool;
  ca_certs : option string
}.

(** An [IRCProtocol] object: its [backend] is the backend of the state;
    [legacy] is [None] when the object has none of the attributes above. *)
Record protocol : Type := mkProtocol {
  legacy : option legacy_attrs
}.

(** [__init__(backend)] sets [self.backend] and nothing else, and the class
    defines methods only. *)
Definition __init__ : protocol := mkProtocol None.

Definition connection_made (t : transport_id) : M unit :=
  AsynchatBackend.connection_made t.

Definition data_received (data : bytes) : M unit :=
  AsynchatBackend.data_received data.

Definition connection_lost : M unit :=
  AsynchatBackend.connection_lost.

(** Reading one of the legacy attributes: [AttributeError] on an object
    that does not have them. *)
Definition legacy_of (self : protocol) : M legacy_attrs :=
  match legacy self with
  | Some attrs => ret attrs
  | None => raise AttributeError
  end.

(** [context.load_verify_locations(self.ca_certs)]. *)
Definition load_verify_locations (env : tls_env) : M unit :=
  if load_raises env then raise OSError else ret tt.

(** [context.wrap_socket(self.socket, server_hostname=self.host)]. *)
Definition wrap_socket (env : tls_env)
    (context : SSLAsynchatBackend.ssl_context)
    (server_hostname : option string) : M unit :=
  if handshake_fails env context server_hostname then raise OSError
  else ret tt.

(** [ssl.match_hostname(self.ssl.getpeercert(), name)]. *)
Definition match_hostname (env : tls_env) (name : option string) : M unit :=
  if cert_matches env name then ret tt else raise CertificateError.

Definition os_unlink (env : tls_env) (path : string) : M unit :=
  if unlink_raises env then raise OSError else emit (Unlink path).

Definition os_exit {A} (code : Z) : M A := fun s => (Exit code, s).

(** The [for hostname in get_cnames(self.host)] loop; the result is
    [has_matched]. *)
Fixpoint try_cnames (env : tls_env) (names : list string) : M bool :=
  match names with
  | [] => ret false
  | hostname :: rest =>
      matched <-
        try_except
          (match_hostname env (Some hostname) ;; ret true)
          CertificateError
          (ret false) ;;
      if matched then ret true else try_cnames env rest
  end.

(** [handle_connect(self)].  The context of [ssl.PROTOCOL_TLS_CLIENT]
    checks the hostname and requires a certificate; the first attribute
    read is [self.verify_ssl], and the context is configured before the
    [try] block.  The block's value tells whether the [except OSError]
    handler returned from the method. *)
Definition handle_connect (self : protocol) (env : tls_env) : M unit :=
  let context :=
    SSLAsynchatBackend.mkContext true SSLAsynchatBackend.CERT_REQUIRED in
  attrs <- legacy_of self ;;
  context <-
    (if verify_ssl attrs then
       c <- SSLAsynchatBackend.set_verify_mode
              SSLAsynchatBackend.CERT_REQUIRED context ;;
       (match ca_certs attrs with
        | Some path =>
            if String.eqb path "" then ret tt
            else load_verify_locations env
        | None => ret tt
        end) ;;
       SSLAsynchatBackend.set_check_hostname true c
     else
       c <- SSLAsynchatBackend.set_check_hostname false context ;;
       SSLAsynchatBackend.set_verify_mode SSLAsynchatBackend.CERT_NONE c) ;;
  returned <-
    try_except
      (b <- get_self ;;
       wrap_socket env context (host b) ;;
       (if verify_ssl attrs then
          try_except
            (b <- get_self ;; match_hostname env (host b))
            CertificateError
            (has_matched <- try_cnames env (cnames env) ;;
             if negb has_matched then
               match pid_file_path env with
               | Some path => os_unlink env path ;; os_exit 1
               | None => ret tt
               end
             else ret tt)
        else ret tt) ;;
       ret false)
      OSError
      (handle_close ;; ret true) ;;
  if (returned : bool) then ret tt
  else
    emit SetSocket ;;
    emit SchedulerStart ;;
    emit OnConnect.

End IRCProtocol.

(** ** Running methods and reading the trace *)

(** The trace left by running [m]. *)
Definition trace_of {A} (r : outcome A * state) : list event :=
  trace (snd (snd r)).

Definition self_of {A} (r : outcome A * state) : backend := fst (snd r).

Definition result_of {A} (r : outcome A * state) : outcome A := fst r.

(** The lines handed to [bot.on_message], in order. *)
Fixpoint delivered (tr : list event) : list str :=
  match tr with
  | [] => []
  | OnMessage line :: r => line :: delivered r
  | _ :: r => delivered r
  end.

(** The notifications that reach the host. *)
Definition is_notification (e : event) : bool :=
  match e with
  | OnMessage _ | OnConnect | OnClose | OnError => true
  | _ => false
  end.

Definition notifications (tr : list event) : list event :=
  filter is_notification tr.

Definition count_event (p : event -> bool) (tr : list event) : nat :=
  List.length (filter p tr).

Definition is_on_close (e : event) : bool :=
  match e with OnClose => true | _ => false end.

Definition is_transport_close (e : event) : bool :=
  match e with TransportClose _ => true | _ => false end.

(** Feeding chunks to [data_received] one call after the other; a call that
    does not return normally stops the feeding. *)
Fixpoint feed (chunks : list bytes) : M unit :=
  match chunks with
  | [] => ret tt
  | c :: r => data_received c ;; feed r
  end.

(** A world with an empty trace, a clock that reads [t0 + n] at the n-th
    reading, and a working [send_ping]. *)
Definition quiet_world (t0 : datetime) : world :=
  mkWorld [] (fun n => (t0 + Z.of_nat n)%Z) 0 false.

Definition fresh : state := (__init__ None None, quiet_world 0%Z).


(** ** Vocabulary of the statements *)

(** The text that the decoding cascade of [collect_incoming_data] yields for
    a chunk. *)
Definition decoded (data : bytes) : str :=
  match unicode data UTF_8 with
  | Some text => text
  | None =>
      match unicode data CP1252 with
      | Some text => text
      | None => map ord data
      end
  end.

(** The text before and after the first [c] of [s]. *)
Fixpoint before_first (c : char) (s : str) : str :=
  match s with
  | [] => []
  | x :: r => if N.eqb x c then [] else x :: before_first c r
  end.

Fixpoint after_first (c : char) (s : str) : str :=
  match s with
  | [] => []
  | x :: r => if N.eqb x c then r else after_first c r
  end.

(** A line without one trailing carriage return. *)
Definition strip_cr (s : str) : str :=
  if endswith CR s then drop_last s else s.

(** The world after [n] more readings of the clock and the calls [tr]. *)
Definition advance (n : nat) (tr : list event) (w : world) : world :=
  mkWorld (trace w ++ tr) (clock w) (n + reads w) (ping_raises w).


(** The most recent of the last-event and last-ping times, if any. *)
Definition most_recent (b : backend) : option datetime :=
  match last_event_at b, last_ping_at b with
  | Some e, Some p => Some (Z.max e p)
  | Some e, None => Some e
  | None, Some p => Some p
  | None, None => None
  end.

(** A ping is due at [now]: more than the ping interval has passed since
    the most recent time, or there is no such time. *)
Definition ping_due (b : backend) (now : datetime) : Prop :=
  match most_recent b with
  | Some t => (ping_interval b < total_seconds (now - t)%Z)%Q
  | None => True
  end.

(** The peer certificate matches neither the host nor any of its aliases. *)
Definition certificate_mismatch (env : tls_env) (h : string) : Prop :=
  cert_matches env (Some h) = false /\
  forall name, In name (cnames env) -> cert_matches env (Some name) = false.

(** The connection attempt that the event loop makes for the SSL backend:
    a handshake with the host [h] under the given context, which yields
    the transport [t] when it completes and [socket.error] otherwise. *)
Definition tls_attempt (env : tls_env) (h : string) (t : transport_id)
    (context : SSLAsynchatBackend.ssl_context) : connect_result :=
  if handshake_fails env context (Some h) then SocketError else Connected t.

Definition tls_world (env : tls_env) (h : string) (t : transport_id)
    : SSLAsynchatBackend.ssl_world :=
  SSLAsynchatBackend.mkSslWorld (load_raises env) (tls_attempt env h t).

(** A TLS setting in which the handshake has no trouble of its own but the
    certificate matches no name at all, and one in which the certificate
    matches every name but the handshake fails. *)
Definition mismatching_env : tls_env :=
  {| handshake_raises := false;
     cert_matches := fun _ => false;
     cnames := ["chat.example.net"];
     load_raises := false;
     pid_file_path := Some "/run/sopel.pid";
     unlink_raises := false |}.

Definition failing_handshake_env : tls_env :=
  {| handshake_raises := true;
     cert_matches := fun _ => true;
     cnames := ["chat.example.net"];
     load_raises := false;
     pid_file_path := Some "/run/sopel.pid";
     unlink_raises := false |}.

Definition connected_to_example : state :=
  (with_target "irc.example.net" 6697 "0.0.0.0" (__init__ None None),
   quiet_world 0%Z).

(** The calls made by one [handle_close] on backend [b], and the backend
    it leaves. *)
Definition close_calls (b : backend) : list event :=
  SchedulerStop ::
    match transport b with
    | Some t => [TransportClose t; OnClose]
    | None => [OnClose]
    end.

Definition closed (b : backend) : backend :=
  with_connected false (with_transport None b).

(** The calls that reach the backend from the event loop, the scheduler and
    the bot, and the state after a series of them (a call that raises
    leaves the state it reached). *)
Inductive call : Type :=
| CallConnect (res : connect_result) (h : string) (p : Z) (a : string)
| CallConnectionMade (t : transport_id)
| CallConnectionLost
| CallDataReceived (data : bytes)
| CallSend (data : bytes)
| CallSendPingJob
| CallCheckTimeoutJob
| CallJobError
| CallIrcError (hasquit : bool)
| CallHandleError.

Definition run_call (c : call) : M unit :=
  match c with
  | CallConnect res h p a => initiate_connect res h p a
  | CallConnectionMade t => connection_made t
  | CallConnectionLost => connection_lost
  | CallDataReceived data => data_received data
  | CallSend data => irc_send data
  | CallSendPingJob => _send_ping
  | CallCheckTimeoutJob => _check_timeout
  | CallJobError => on_job_error
  | CallIrcError hasquit => on_irc_error hasquit
  | CallHandleError => handle_error
  end.

Fixpoint run_calls (cs : list call) (s : state) : state :=
  match cs with
  | [] => s
  | c :: r => run_calls r (snd (run_call c s))
  end.


(** * Properties *)

(** ** Sanity checks of the codecs and of [split] *)

Example utf8_e_acute : utf8 [xc3; xa9] = Some [233%N].
Proof. reflexivity. Qed.

Example utf8_euro : utf8 [xe2; x82; xac] = Some [8364%N].
Proof. reflexivity. Qed.

Example utf8_truncated : utf8 [x0a; xc3] = None.
Proof. reflexivity. Qed.

Example utf8_surrogate : utf8 [xed; xa0; x80] = None.
Proof. reflexivity. Qed.

Example cp1252_euro : cp1252 [x80] = Some [8364%N].
Proof. reflexivity. Qed.

Example cp1252_undefined : cp1252 [x81] = None.
Proof. reflexivity. Qed.

Example split1_example :
  split1 LF [97; 10; 98; 10]%N = [[97%N]; [98; 10]%N].
Proof. reflexivity. Qed.

(** ** Construction *)

(** C8: without an explicit [server_timeout] the backend's server timeout is
    120; without an explicit [ping_interval] the ping interval is 0.45 times
    the effective server timeout, which is 54 for a server timeout of 120
    (given or defaulted). *)
Theorem init_defaults :
  (forall pi, server_timeout (__init__ None pi) = (120 # 1)%Q) /\
  (forall st,
      ping_interval (__init__ st None)
      = (server_timeout (__init__ st None) * (45 # 100))%Q) /\
  (ping_interval (__init__ (Some (120 # 1)) None) == 54 # 1)%Q /\
  (ping_interval (__init__ None None) == 54 # 1)%Q.
Proof.
  repeat split; intros; reflexivity.
Qed.

(** ** Closing *)

Lemma handle_close_run (b : backend) (w : world) :
  handle_close (b, w)
  = (Ret tt,
     (with_connected false (with_transport None b),
      mkWorld
        (trace w ++ SchedulerStop ::
           match transport b with
           | Some t => [TransportClose t; OnClose]
           | None => [OnClose]
           end)
        (clock w) (reads w) (ping_raises w))).
Proof.
  destruct b as [bf st pi le lp h p a [t|] pr c];
    unfold handle_close, bind, emit, get_self, set_self, ret; simpl;
    rewrite <- !app_assoc; reflexivity.
Qed.



(** ** Connecting *)

(** C5, as the code has it: a successful connect stores the target and the
    transport, starts the scheduler and then signals [on_connect], and marks
    the backend connected once [create_connection] has returned, after the
    signal.  It does not read the clock: [last_event_at] keeps the value it
    had, [None] for a new backend, until data is received. *)
Theorem initiate_connect_success
    (t : transport_id) (h : string) (p : Z) (a : string)
    (b : backend) (w : world) :
  let r := initiate_connect (Connected t) h p a (b, w) in
  result_of r = Ret tt /\
  trace_of r = trace w ++ [SchedulerStart; OnConnect] /\
  _connected (self_of r) = true /\
  transport (self_of r) = Some t /\
  host (self_of r) = Some h /\
  last_event_at (self_of r) = last_event_at b /\
  reads (snd (snd r)) = reads w /\
  let mid := (set_self (with_target h p a) ;;
              create_connection (Connected t)) (b, w) in
  trace_of mid = trace_of r /\ _connected (self_of mid) = _connected b.
Proof.
  unfold initiate_connect, try_except_else, create_connection,
    connection_made, handle_connect, bind, emit, set_self, ret,
    result_of, trace_of, self_of; simpl.
  rewrite <- app_assoc; simpl.
  repeat split; reflexivity.
Qed.

(** C5 fails as stated: after a successful connect of a new backend no
    last-event time has been recorded. *)
Lemma connect_records_no_event_time :
  let r := initiate_connect (Connected 3) "irc.example.net" 6667 "0.0.0.0"
             fresh in
  result_of r = Ret tt /\
  _connected (self_of r) = true /\
  last_event_at (self_of r) = None /\
  forall now : datetime, last_event_at (self_of r) <> Some now.
Proof.
  repeat split; try reflexivity.
  intros now; vm_compute; discriminate.
Qed.

(** A connection that cannot be made is closed again: [on_close] is
    signalled and the backend stays disconnected. *)
Lemma initiate_connect_failure
    (h : string) (p : Z) (a : string) (b : backend) (w : world) :
  let r := initiate_connect SocketError h p a (b, w) in
  result_of r = Ret tt /\
  _connected (self_of r) = false /\
  In OnClose (trace_of r) /\
  ~ In OnConnect (skipn (List.length (trace w)) (trace_of r)).
Proof.
  unfold initiate_connect, try_except_else, create_connection,
    bind, raise; simpl.
  rewrite handle_close_run.
  unfold result_of, trace_of, self_of; simpl.
  repeat split.
  - apply in_or_app; right.
    destruct (transport b); simpl; auto.
  - rewrite skipn_app, skipn_all, Nat.sub_diag; simpl.
    destruct (transport b); simpl; intuition discriminate.
Qed.

(** ** The timeout job *)

(** C7, the failing case: a backend that is connected and has not received
    anything yet has no last-event time, and the timeout job raises
    [TypeError] on the subtraction instead of returning. *)
Theorem check_timeout_raises_before_first_event :
  let b := with_connected true (with_transport (Some 3) (__init__ None None)) in
  _connected b = true /\
  last_event_at b = None /\
  result_of (_check_timeout (b, quiet_world 0%Z)) = Raise TypeError /\
  result_of (_send_ping (b, quiet_world 0%Z)) = Ret tt.
Proof.
  repeat split; reflexivity.
Qed.

(** The same, for every connected backend without a last-event time. *)
Lemma check_timeout_needs_event_time (b : backend) (w : world) :
  _connected b = true ->
  last_event_at b = None ->
  result_of (_check_timeout (b, w)) = Raise TypeError.
Proof.
  intros Hc He.
  unfold _check_timeout, is_connected, bind, get_self, ret, utcnow; simpl.
  rewrite Hc; simpl. rewrite He; reflexivity.
Qed.

(** When a last-event time exists and the server timeout has passed, the
    job empties the buffer and closes; nothing is handed to the host but
    [on_close]. *)
Lemma check_timeout_fires (b : backend) (w : world) (t : datetime) :
  _connected b = true ->
  last_event_at b = Some t ->
  (server_timeout b < total_seconds (clock w (reads w) - t)%Z)%Q ->
  let r := _check_timeout (b, w) in
  result_of r = Ret tt /\
  buffer (self_of r) = [] /\
  _connected (self_of r) = false /\
  delivered (trace_of r) = delivered (trace w) /\
  exists tr, trace_of r = trace w ++ SchedulerStop :: tr /\ In OnClose tr.
Proof.
  intros Hc He Hlt.
  unfold _check_timeout, is_connected, bind, get_self, ret, utcnow; simpl.
  rewrite Hc; simpl. rewrite He; simpl.
  unfold Qgt_bool.
  destruct (Qle_bool _ _) eqn:Hle.
  - apply Qle_bool_iff in Hle. exfalso. apply (Qlt_not_le _ _ Hlt Hle).
  - simpl. unfold discard_buffers, set_self; simpl.
    rewrite handle_close_run.
    unfold result_of, trace_of, self_of; simpl.
    repeat split.
    + assert (Hd : forall l l', delivered (l ++ l') = delivered l ++ delivered l').
      { induction l as [|e l IH]; intros l'; simpl; [reflexivity|].
        destruct e; simpl; rewrite ?IH; reflexivity. }
      rewrite Hd. destruct (transport b); simpl; apply app_nil_r.
    + eexists; split; [reflexivity|].
      destruct (transport b); simpl; auto.
Qed.

(** ** The line framer *)

Lemma split1_found (c : char) (s : str) :
  contains c s = true ->
  split1 c s = [before_first c s; after_first c s].
Proof.
  induction s as [|x r IH]; simpl; [discriminate|].
  rewrite N.eqb_sym.
  destruct (N.eqb x c); simpl; [reflexivity|].
  intros H; rewrite (IH H); reflexivity.
Qed.

Lemma split1_join (c : char) (s : str) :
  contains c s = true ->
  s = before_first c s ++ c :: after_first c s.
Proof.
  induction s as [|x r IH]; simpl; [discriminate|].
  rewrite N.eqb_sym.
  destruct (N.eqb x c) eqn:E; simpl.
  - apply N.eqb_eq in E; subst; reflexivity.
  - intros H; rewrite <- (IH H); reflexivity.
Qed.

Lemma advance_0_nil (w : world) : advance 0 [] w = w.
Proof.
  destruct w; unfold advance; simpl; rewrite app_nil_r; reflexivity.
Qed.

Lemma delivered_app (l l' : list event) :
  delivered (l ++ l') = delivered l ++ delivered l'.
Proof.
  induction l as [|e l IH]; simpl; [reflexivity|].
  destruct e; simpl; rewrite ?IH; reflexivity.
Qed.

(** ISO 8859-1 accepts every chunk, so the cascade always yields a text. *)
Lemma unicode_cascade (data : bytes) :
  unicode data ISO8859_1 = Some (map ord data) /\
  (unicode data UTF_8 = Some (decoded data) \/
   unicode data UTF_8 = None /\ unicode data CP1252 = Some (decoded data) \/
   unicode data UTF_8 = None /\ unicode data CP1252 = None /\
   unicode data ISO8859_1 = Some (decoded data)).
Proof.
  split; [reflexivity|].
  unfold decoded.
  destruct (unicode data UTF_8); [left; reflexivity|right].
  destruct (unicode data CP1252); [left; split; reflexivity|right].
  repeat split.
Qed.

Lemma collect_incoming_data_run (data : bytes) (b : backend) (w : world) :
  collect_incoming_data data (b, w)
  = (Ret tt,
     (with_last_event_at (Some (clock w (reads w)))
        (with_buffer (buffer b ++ decoded data) b),
      advance 1
        (if truthy (decoded data) then [LogRaw (decoded data)] else []) w)).
Proof.
  unfold collect_incoming_data, decoded.
  destruct (unicode data UTF_8) as [t|];
    [|destruct (unicode data CP1252) as [t|]; [|simpl unicode; cbv iota]];
    unfold bind, emit, set_self, utcnow, ret, advance; simpl;
    match goal with |- context [truthy ?x] => destruct (truthy x) end;
    simpl; rewrite ?app_nil_r; reflexivity.
Qed.

(** One round of the loop is all there is: [found_terminator] takes the
    rest of the buffer as the line and empties the buffer. *)
Lemma data_received_loop_run (fuel : nat) (b : backend) (w : world) :
  data_received_loop (S fuel) (b, w)
  = if contains LF (buffer b)
    then (Ret tt,
          (with_buffer [] b,
           advance 0 [OnMessage (strip_cr (after_first LF (buffer b)))] w))
    else (Ret tt, (b, w)).
Proof.
  simpl. unfold bind at 1. unfold get_self at 1. simpl.
  destruct (contains LF (buffer b)) eqn:Hc; [|reflexivity].
  rewrite (split1_found _ _ Hc).
  unfold found_terminator, bind, set_self, get_self, emit, ret, advance,
    strip_cr; simpl.
  destruct fuel; reflexivity.
Qed.

Lemma data_received_run (data : bytes) (b : backend) (w : world) :
  let text := buffer b ++ decoded data in
  let log := if truthy (decoded data) then [LogRaw (decoded data)] else [] in
  let b' := with_last_event_at (Some (clock w (reads w))) b in
  data_received data (b, w)
  = if contains LF text
    then (Ret tt,
          (with_buffer [] b',
           advance 1 (log ++ [OnMessage (strip_cr (after_first LF text))]) w))
    else (Ret tt, (with_buffer text b', advance 1 log w)).
Proof.
  cbv zeta. unfold data_received.
  unfold bind at 1. rewrite collect_incoming_data_run.
  unfold bind at 1. unfold get_self at 1. cbv beta iota. 
  rewrite data_received_loop_run. simpl buffer.
  destruct (contains LF (buffer b ++ decoded data)); [|reflexivity].
  unfold advance; simpl. rewrite <- app_assoc. reflexivity.
Qed.

Lemma option_map_cons_nonempty (c : char) (o : option str) (t : str) :
  option_map (cons c) o = Some t -> t <> [].
Proof.
  destruct o; simpl; intros H; inversion H; discriminate.
Qed.

Lemma utf8_nonempty (b0 : byte) (r : bytes) (t : str) :
  utf8 (b0 :: r) = Some t -> t <> [].
Proof.
  simpl.
  destruct (ord b0 <? 128)%N; [apply option_map_cons_nonempty|].
  destruct (in_range 194 223 b0).
  { destruct r as [|b1 r1]; [discriminate|].
    destruct (is_cont b1); [apply option_map_cons_nonempty|discriminate]. }
  destruct (in_range 224 239 b0).
  { destruct r as [|b1 [|b2 r2]]; try discriminate.
    destruct (second_of_3 (ord b0)) as [lo hi].
    destruct (in_range lo hi b1 && is_cont b2);
      [apply option_map_cons_nonempty|discriminate]. }
  destruct (in_range 240 244 b0); [|discriminate].
  destruct r as [|b1 [|b2 [|b3 r3]]]; try discriminate.
  destruct (second_of_4 (ord b0)) as [lo hi].
  destruct (in_range lo hi b1 && is_cont b2 && is_cont b3);
    [apply option_map_cons_nonempty|discriminate].
Qed.

Lemma decoded_nonempty (data : bytes) : data <> [] -> decoded data <> [].
Proof.
  destruct data as [|b0 r]; [congruence|intros _].
  unfold decoded.
  destruct (unicode (b0 :: r) UTF_8) as [t|] eqn:E1.
  { exact (utf8_nonempty _ _ E1). }
  destruct (unicode (b0 :: r) CP1252) as [t|] eqn:E2; [|discriminate].
  simpl in E2. destruct (cp1252_char b0); [|discriminate].
  exact (option_map_cons_nonempty _ _ E2).
Qed.

(** C10: for every chunk, [collect_incoming_data] returns normally, the
    third decoding cannot fail, so the chunk is never dropped: its decoded
    text (never empty for a chunk that is not) is appended to the buffer
    and the last-event time becomes the current time. *)
Theorem collect_incoming_data_never_discards
    (data : bytes) (b : backend) (w : world) :
  let r := collect_incoming_data data (b, w) in
  unicode data ISO8859_1 <> None /\
  result_of r = Ret tt /\
  buffer (self_of r) = buffer b ++ decoded data /\
  last_event_at (self_of r) = Some (clock w (reads w)) /\
  (data <> [] -> decoded data <> []) /\
  (unicode data UTF_8 = Some (decoded data) \/
   unicode data UTF_8 = None /\ unicode data CP1252 = Some (decoded data) \/
   unicode data UTF_8 = None /\ unicode data CP1252 = None /\
   unicode data ISO8859_1 = Some (decoded data)).
Proof.
  cbv zeta. rewrite collect_incoming_data_run.
  unfold result_of, self_of; simpl.
  repeat split; try discriminate.
  - apply decoded_nonempty.
  - apply unicode_cascade.
Qed.

(** C2, the failing case: the chunk "PING :x\r\n" hands the host the empty
    text that follows the terminator, not "PING :x"; the text before the
    terminator is dropped.  Likewise "a\nb\r\nc\n" hands over the single
    line "b\r\nc\n". *)
Theorem data_received_delivers_text_after_terminator :
  let ping := [x50; x49; x4e; x47; x20; x3a; x78; x0d; x0a] in
  let abc := [x61; x0a; x62; x0d; x0a; x63; x0a] in
  decoded ping = [80; 73; 78; 71; 32; 58; 120; 13; 10]%N /\
  result_of (data_received ping fresh) = Ret tt /\
  delivered (trace_of (data_received ping fresh)) = [[]] /\
  buffer (self_of (data_received ping fresh)) = [] /\
  delivered (trace_of (data_received abc fresh)) = [[98; 13; 10; 99; 10]%N].
Proof.
  repeat split; reflexivity.
Qed.

(** C3, the failing case: after the chunk "a\nb" the text "b" that follows
    the terminator is not kept for the next call; it has been handed to the
    host as a line and the buffer is empty, so a later "c\n" delivers
    nothing of "bc". *)
Theorem data_received_keeps_no_residual_text :
  let a_b := [x61; x0a; x62] in
  let c := [x63; x0a] in
  result_of (data_received a_b fresh) = Ret tt /\
  buffer (self_of (data_received a_b fresh)) = [] /\
  delivered (trace_of (data_received a_b fresh)) = [[98%N]] /\
  delivered (trace_of (feed [a_b; c] fresh)) = [[98%N]; []].
Proof.
  repeat split; reflexivity.
Qed.

(** What does hold of the buffer: after [data_received] it contains no
    terminator, and it is empty whenever a terminator arrived. *)
Lemma data_received_buffer_invariant (data : bytes) (b : backend) (w : world) :
  let r := data_received data (b, w) in
  result_of r = Ret tt /\
  contains LF (buffer (self_of r)) = false /\
  (contains LF (buffer b ++ decoded data) = true -> buffer (self_of r) = []).
Proof.
  cbv zeta. rewrite data_received_run.
  destruct (contains LF (buffer b ++ decoded data)) eqn:E;
    unfold result_of, self_of; simpl; repeat split; auto; discriminate.
Qed.

(** ** The ping job *)

Lemma Qgt_bool_true (x y : Q) : Qgt_bool x y = true <-> (y < x)%Q.
Proof.
  unfold Qgt_bool. rewrite negb_true_iff.
  split.
  - intros H. apply Qnot_le_lt. intros Hle.
    apply Qle_bool_iff in Hle. congruence.
  - intros H. destruct (Qle_bool x y) eqn:E; [|reflexivity].
    apply Qle_bool_iff in E. exfalso. exact (Qlt_not_le _ _ H E).
Qed.

Lemma Qgt_bool_false (x y : Q) : Qgt_bool x y = false <-> ~ (y < x)%Q.
Proof.
  rewrite <- Qgt_bool_true. destruct (Qgt_bool x y); split; congruence.
Qed.

(** C6, as the code has it.  When not connected the job does nothing.  When
    connected it returns normally, and it sends a PING with the host as
    payload and records the time read after the send as last-ping time
    exactly when a ping is due and the send does not fail with
    [socket.error]; when no ping is due, or the send fails, nothing is sent
    and the backend is unchanged. *)
Theorem send_ping_job (b : backend) (w : world) :
  let r := _send_ping (b, w) in
  let k := match most_recent b with Some _ => 1 | None => 0 end in
  result_of r = Ret tt /\
  (_connected b = false -> snd r = (b, w)) /\
  (_connected b = true ->
   ping_due b (clock w (reads w)) -> ping_raises w = false ->
   self_of r = with_last_ping_at (Some (clock w (k + reads w))) b /\
   snd (snd r) = advance (S k) [SendPing (host b)] w) /\
  (_connected b = true ->
   ~ ping_due b (clock w (reads w)) \/ ping_raises w = true ->
   self_of r = b /\ trace_of r = trace w).
Proof.
  destruct b as [bf st pi le lp h p a t pr c], w as [tr ck rd pf].
  unfold ping_due, most_recent, result_of, self_of, trace_of, advance.
  destruct c, le as [e|], lp as [q|];
    cbn -[Qgt_bool total_seconds Z.sub Z.max];
    try (destruct (Qgt_bool _ pi) eqn:Hq;
         [apply Qgt_bool_true in Hq | apply Qgt_bool_false in Hq]);
    destruct pf; cbn -[Qgt_bool total_seconds Z.sub Z.max];
    (split; [reflexivity|]);
    (split; [intros Hx; first [discriminate Hx | reflexivity]|]);
    (split;
     [intros Hc Hd Hx;
      first [discriminate Hc | discriminate Hx | contradiction
            | split; reflexivity]
     |intros Hc Hx;
      first [discriminate Hc
            | destruct Hx as [Hd|Hx];
              first [discriminate Hx | contradiction
                    | exfalso; apply Hd; exact I
                    | split; reflexivity]]]).
Qed.

Lemma send_ping_job_witness :
  let b := with_last_event_at (Some 0%Z)
             (with_target "irc.example.net" 6667 "0.0.0.0"
                (with_connected true (__init__ None None))) in
  let w := quiet_world 60000000%Z in
  self_of (_send_ping (b, w)) = with_last_ping_at (Some 60000001%Z) b /\
  trace_of (_send_ping (b, w)) = [SendPing (Some "irc.example.net")].
Proof.
  intros b w.
  destruct (send_ping_job b w) as (_ & _ & H & _).
  destruct (H eq_refl) as [H1 H2].
  - vm_compute; reflexivity.
  - reflexivity.
  - split; [exact H1|].
    unfold trace_of. rewrite H2. reflexivity.
Defined.

(** C6 fails as stated: on a connected backend with neither time recorded a
    ping is due, but when the send fails with [socket.error] the job
    returns without a PING sent and without a last-ping time. *)
Lemma send_ping_failure_records_nothing :
  let b := with_target "irc.example.net" 6667 "0.0.0.0"
             (with_connected true (__init__ None None)) in
  let w := mkWorld [] (fun n => Z.of_nat n) 0 true in
  _connected b = true /\
  most_recent b = None /\
  ping_due b (clock w (reads w)) /\
  result_of (_send_ping (b, w)) = Ret tt /\
  trace_of (_send_ping (b, w)) = [] /\
  last_ping_at (self_of (_send_ping (b, w))) = None.
Proof.
  repeat split; reflexivity.
Qed.

(** ** Chunk boundaries *)

(** Strict UTF-8 decodes a concatenation of valid chunks chunk by chunk. *)
Lemma option_map_app_cons (c : char) (s : str) (o : option str) :
  option_map (cons c) (option_map (app s) o) = option_map (app (c :: s)) o.
Proof. destruct o; reflexivity. Qed.

Ltac utf8_step IH :=
  match goal with
  | H : option_map (cons ?c) (utf8 ?r) = Some ?ta |- _ =>
      let E := fresh "E" in
      destruct (utf8 r) eqn:E; [|discriminate H];
      simpl in H; inversion H; subst; clear H;
      rewrite (IH r _ E) by (simpl in *; lia);
      apply option_map_app_cons
  end.

Lemma utf8_app_bounded (n : nat) :
  forall (a : bytes) (ta : str) (b : bytes),
    List.length a <= n ->
    utf8 a = Some ta ->
    utf8 (a ++ b) = option_map (app ta) (utf8 b).
Proof.
  induction n as [|n IH]; intros a ta b Hlen H.
  - destruct a; [|simpl in Hlen; lia].
    simpl in H. inversion H; subst. simpl. destruct (utf8 b); reflexivity.
  - destruct a as [|b0 r0].
    { simpl in H. inversion H; subst. simpl. destruct (utf8 b); reflexivity. }
    assert (IH' : forall r t, utf8 r = Some t -> List.length r <= n ->
                    utf8 (r ++ b) = option_map (app t) (utf8 b)).
    { intros r t E L. exact (IH r t b L E). }
    clear IH. simpl in Hlen.
    rewrite <- app_comm_cons.
    simpl utf8 in H |- *.
    destruct (ord b0 <? 128)%N.
    { utf8_step IH'. }
    destruct (in_range 194 223 b0).
    { destruct r0 as [|b1 r1]; [discriminate H|].
      rewrite <- app_comm_cons.
      destruct (is_cont b1); [|discriminate H].
      utf8_step IH'. }
    destruct (in_range 224 239 b0).
    { destruct r0 as [|b1 [|b2 r2]]; try discriminate H.
      rewrite <- !app_comm_cons.
      destruct (second_of_3 (ord b0)) as [lo hi].
      destruct (in_range lo hi b1 && is_cont b2); [|discriminate H].
      utf8_step IH'. }
    destruct (in_range 240 244 b0); [|discriminate H].
    destruct r0 as [|b1 [|b2 [|b3 r3]]]; try discriminate H.
    rewrite <- !app_comm_cons.
    destruct (second_of_4 (ord b0)) as [lo hi].
    destruct (in_range lo hi b1 && is_cont b2 && is_cont b3); [|discriminate H].
    utf8_step IH'.
Qed.

Lemma lor_shiftl_not_LF (x n y : N) :
  N.shiftr 10 n = 0%N -> x <> 0%N -> N.lor (N.shiftl x n) y <> 10%N.
Proof.
  intros Hs Hx Heq.
  apply (f_equal (fun v => N.shiftr v n)) in Heq.
  rewrite N.shiftr_lor, Hs in Heq.
  apply N.lor_eq_0_l in Heq.
  rewrite N.shiftr_shiftl_l, N.sub_diag, N.shiftl_0_r in Heq by reflexivity.
  contradiction.
Qed.

Lemma ord_LF (b : byte) : ord b = 10%N -> b = x0a.
Proof.
  intros H. pose proof (Byte.of_to_N b) as E.
  unfold ord in H. rewrite H in E. simpl in E. congruence.
Qed.

Lemma cp2_not_LF (b0 b1 : byte) :
  in_range 194 223 b0 = true ->
  N.lor (N.shiftl (N.land (ord b0) 31) 6) (low6 b1) <> 10%N.
Proof.
  intros H. apply lor_shiftl_not_LF; [reflexivity|].
  destruct b0; try discriminate H; vm_compute; discriminate.
Qed.

Lemma cp3_not_LF (b0 b1 b2 : byte) (lo hi : N) :
  in_range 224 239 b0 = true ->
  second_of_3 (ord b0) = (lo, hi) ->
  in_range lo hi b1 = true ->
  N.lor (N.shiftl (N.land (ord b0) 15) 12)
    (N.lor (N.shiftl (low6 b1) 6) (low6 b2)) <> 10%N.
Proof.
  intros H0 H2 H1.
  destruct (N.eq_dec (N.land (ord b0) 15) 0) as [Z|NZ].
  - rewrite Z. rewrite N.shiftl_0_l, N.lor_0_l.
    apply lor_shiftl_not_LF; [reflexivity|].
    destruct b0; try discriminate H0; try discriminate Z.
    vm_compute in H2. inversion H2; subst lo hi.
    destruct b1; try discriminate H1; vm_compute; discriminate.
  - apply lor_shiftl_not_LF; [reflexivity|exact NZ].
Qed.

Lemma cp4_not_LF (b0 b1 b2 b3 : byte) (lo hi : N) :
  in_range 240 244 b0 = true ->
  second_of_4 (ord b0) = (lo, hi) ->
  in_range lo hi b1 = true ->
  N.lor (N.shiftl (N.land (ord b0) 7) 18)
    (N.lor (N.shiftl (low6 b1) 12)
       (N.lor (N.shiftl (low6 b2) 6) (low6 b3))) <> 10%N.
Proof.
  intros H0 H2 H1.
  destruct (N.eq_dec (N.land (ord b0) 7) 0) as [Z|NZ].
  - rewrite Z. rewrite N.shiftl_0_l, N.lor_0_l.
    apply lor_shiftl_not_LF; [reflexivity|].
    destruct b0; try discriminate H0; try discriminate Z.
    vm_compute in H2. inversion H2; subst lo hi.
    destruct b1; try discriminate H1; vm_compute; discriminate.
  - apply lor_shiftl_not_LF; [reflexivity|exact NZ].
Qed.

Lemma contains_cons_not_LF (c : char) (s : str) :
  c <> LF -> contains LF (c :: s) = contains LF s.
Proof.
  intros H. unfold contains; cbn [existsb].
  destruct (N.eqb_spec LF c) as [E|E]; [congruence|reflexivity].
Qed.

Ltac no_lf_step IH :=
  match goal with
  | H : option_map (cons ?c) (utf8 ?r) = Some ?ta |- _ =>
      let E := fresh "E" in
      destruct (utf8 r) eqn:E; [|discriminate H];
      simpl in H; inversion H; subst; clear H;
      rewrite contains_cons_not_LF;
      [apply (IH r _ E); [simpl in *; lia | simpl in *; tauto] | ]
  end.

Lemma utf8_no_LF_bounded (n : nat) :
  forall (a : bytes) (t : str),
    List.length a <= n ->
    utf8 a = Some t ->
    ~ In x0a a ->
    contains LF t = false.
Proof.
  induction n as [|n IH]; intros a t Hlen H Hin.
  - destruct a; [|simpl in Hlen; lia].
    simpl in H. inversion H; reflexivity.
  - destruct a as [|b0 r0].
    { simpl in H. inversion H; reflexivity. }
    assert (IH' : forall r s, utf8 r = Some s -> List.length r <= n ->
                    ~ In x0a r -> contains LF s = false).
    { intros r s E L I. exact (IH r s L E I). }
    clear IH. simpl in Hlen.
    simpl utf8 in H.
    destruct (ord b0 <? 128)%N.
    { no_lf_step IH'.
      intros Hc. apply ord_LF in Hc. apply Hin. left. congruence. }
    destruct (in_range 194 223 b0) eqn:R2.
    { destruct r0 as [|b1 r1]; [discriminate H|].
      destruct (is_cont b1); [|discriminate H].
      no_lf_step IH'. apply cp2_not_LF; assumption. }
    destruct (in_range 224 239 b0) eqn:R3.
    { destruct r0 as [|b1 [|b2 r2]]; try discriminate H.
      destruct (second_of_3 (ord b0)) as [lo hi] eqn:S3.
      destruct (in_range lo hi b1) eqn:R31; [|discriminate H].
      destruct (is_cont b2); [|discriminate H].
      cbn [andb] in H.
      no_lf_step IH'. eapply cp3_not_LF; eassumption. }
    destruct (in_range 240 244 b0) eqn:R4; [|discriminate H].
    destruct r0 as [|b1 [|b2 [|b3 r3]]]; try discriminate H.
    destruct (second_of_4 (ord b0)) as [lo hi] eqn:S4.
    destruct (in_range lo hi b1) eqn:R41; [|discriminate H].
    destruct (is_cont b2); [|discriminate H].
    destruct (is_cont b3); [|discriminate H].
    cbn [andb] in H.
    no_lf_step IH'. eapply cp4_not_LF; eassumption.
Qed.

Lemma utf8_app (a b : bytes) (ta tb : str) :
  utf8 a = Some ta -> utf8 b = Some tb -> utf8 (a ++ b) = Some (ta ++ tb).
Proof.
  intros Ha Hb.
  rewrite (@utf8_app_bounded (List.length a) a ta b (le_n _) Ha), Hb.
  reflexivity.
Qed.

Lemma decoded_utf8 (c : bytes) (t : str) : utf8 c = Some t -> decoded c = t.
Proof.
  intros H. unfold decoded. simpl unicode. rewrite H. reflexivity.
Qed.

Lemma utf8_concat (chunks : list bytes) :
  Forall (fun c => utf8 c <> None) chunks ->
  utf8 (List.concat chunks) = Some (List.concat (map decoded chunks)).
Proof.
  induction 1 as [|c r Hc _ IH]; simpl; [reflexivity|].
  destruct (utf8 c) as [t|] eqn:E; [|congruence].
  rewrite (decoded_utf8 _ E). apply utf8_app; assumption.
Qed.

Lemma contains_app (c : char) (x y : str) :
  contains c (x ++ y) = contains c x || contains c y.
Proof. apply existsb_app. Qed.

Lemma delivered_log (tr : list event) (text : str) :
  delivered (tr ++ (if truthy text then [LogRaw text] else []))
  = delivered tr.
Proof.
  rewrite delivered_app. destruct (truthy text); simpl; apply app_nil_r.
Qed.

Lemma delivered_log_only (text : str) :
  delivered (if truthy text then [LogRaw text] else []) = [].
Proof. destruct (truthy text); reflexivity. Qed.

(** Chunks whose texts bring no terminator only accumulate. *)
Lemma feed_accumulates (chunks : list bytes) :
  forall (b : backend) (w : world),
    contains LF (buffer b ++ List.concat (map decoded chunks)) = false ->
    let r := feed chunks (b, w) in
    result_of r = Ret tt /\
    buffer (self_of r) = buffer b ++ List.concat (map decoded chunks) /\
    delivered (trace_of r) = delivered (trace w).
Proof.
  induction chunks as [|c rest IH]; intros b w H; cbv zeta.
  - simpl. unfold ret, result_of, self_of, trace_of; simpl.
    rewrite app_nil_r. auto.
  - simpl in H. rewrite app_assoc in H.
    assert (Hc : contains LF (buffer b ++ decoded c) = false).
    { rewrite contains_app in H. apply orb_false_iff in H. tauto. }
    assert (Hstep :
      feed (c :: rest) (b, w)
      = feed rest
          (with_buffer (buffer b ++ decoded c)
             (with_last_event_at (Some (clock w (reads w))) b),
           advance 1
             (if truthy (decoded c) then [LogRaw (decoded c)] else []) w)).
    { simpl feed. unfold bind. rewrite data_received_run, Hc. reflexivity. }
    rewrite Hstep.
    match goal with
    | |- context [feed rest (?b', ?w')] =>
        destruct (IH b' w') as (R & B & D); [exact H|]
    end.
    rewrite R, B, D. simpl.
    rewrite delivered_log, <- app_assoc. auto.
Qed.

Lemma feed_app (xs ys : list bytes) (s : state) :
  feed (xs ++ ys) s = (feed xs ;; feed ys) s.
Proof.
  revert s. induction xs as [|c r IH]; intros s; simpl; [reflexivity|].
  unfold bind.
  destruct (data_received c s) as [[u| | |] s']; try reflexivity.
  rewrite IH. unfold bind. reflexivity.
Qed.

(** C1, as the code has it: when every chunk is valid UTF-8 and only the
    last chunk contains line terminators, on a backend whose buffer holds
    none, feeding the chunks one call at a time and feeding their
    concatenation in one call both return normally, deliver the same lines
    in the same order and leave the same text in the buffer. *)
Theorem chunking_with_terminators_in_last_chunk
    (init : list bytes) (last : bytes) (b : backend) (w : world) :
  Forall (fun c => utf8 c <> None) (init ++ [last]) ->
  ~ In x0a (List.concat init) ->
  contains LF (buffer b) = false ->
  let r1 := feed (init ++ [last]) (b, w) in
  let r2 := data_received (List.concat (init ++ [last])) (b, w) in
  result_of r1 = Ret tt /\ result_of r2 = Ret tt /\
  delivered (trace_of r1) = delivered (trace_of r2) /\
  buffer (self_of r1) = buffer (self_of r2).
Proof.
  intros Hvalid Hlf Hbuf. cbv zeta.
  pose proof (utf8_concat Hvalid) as Hall.
  pose proof (decoded_utf8 _ Hall) as Hdec.
  apply Forall_app in Hvalid. destruct Hvalid as [Hinit _].
  pose proof (utf8_concat Hinit) as Hpre.
  assert (Hno : contains LF (buffer b ++ List.concat (map decoded init))
                = false).
  { rewrite contains_app, Hbuf. simpl.
    exact (@utf8_no_LF_bounded _ _ _ (le_n _) Hpre Hlf). }
  destruct (feed_accumulates init b w Hno) as (R & B & D).
  destruct (feed init (b, w)) as [res [b1 w1]] eqn:Efeed.
  unfold result_of in R; simpl in R; subst res.
  unfold self_of in B; simpl in B.
  unfold trace_of in D; simpl in D.
  assert (Hchunked :
    feed (init ++ [last]) (b, w)
    = (data_received last ;; ret tt) (b1, w1)).
  { rewrite feed_app. unfold bind at 1. rewrite Efeed. reflexivity. }
  rewrite Hchunked. unfold bind.
  rewrite !data_received_run, Hdec, map_app, concat_app, B.
  simpl map. simpl List.concat. rewrite app_nil_r, <- app_assoc.
  destruct (contains LF
              (buffer b ++ List.concat (map decoded init) ++ decoded last));
    unfold ret, result_of, trace_of, self_of, advance; simpl;
    rewrite ?app_assoc, ?delivered_app, ?delivered_log, D;
    rewrite ?delivered_app, ?delivered_log_only; auto.
Qed.

Lemma chunking_with_terminators_in_last_chunk_witness :
  let init := [[x61; xc3; xa9]; [x62]] in
  let last := [xe2; x82; xac; x0d; x0a; x63] in
  delivered (trace_of (feed (init ++ [last]) fresh))
  = delivered
      (trace_of (data_received (List.concat (init ++ [last])) fresh)) /\
  buffer (self_of (feed (init ++ [last]) fresh))
  = buffer (self_of (data_received (List.concat (init ++ [last])) fresh)).
Proof.
  intros init last.
  assert (Hvalid : Forall (fun c => utf8 c <> None) (init ++ [last])).
  { repeat constructor; vm_compute; discriminate. }
  assert (Hlf : ~ In x0a (List.concat init)).
  { vm_compute. intuition discriminate. }
  destruct (@chunking_with_terminators_in_last_chunk
              init last (fst fresh) (snd fresh) Hvalid Hlf eq_refl)
    as (_ & _ & D & B).
  split; [exact D | exact B].
Defined.

(** C1 fails as stated.  The text "a\nb\n" delivers the single line "b\n"
    in one call but two empty lines when cut after the first terminator.
    The bytes FF 0A C3 A9 are not UTF-8 as a whole and deliver the CP-1252
    text U+00C3 U+00A9, but cut after FF the second chunk is UTF-8 and
    delivers U+00E9.  The bytes 0A C3 A9 deliver U+00E9 in one call but
    U+00C3 when the cut falls inside the two-byte character. *)
Lemma chunking_changes_delivered_lines :
  let lines := fun chunks => delivered (trace_of (feed chunks fresh)) in
  let whole := fun data => delivered (trace_of (data_received data fresh)) in
  (whole [x61; x0a; x62; x0a] = [[98; 10]%N] /\
   lines [[x61; x0a]; [x62; x0a]] = [[]; []] /\
   lines [[x61; x0a]; [x62; x0a]] <> whole ([x61; x0a] ++ [x62; x0a])) /\
  (whole [xff; x0a; xc3; xa9] = [[195; 169]%N] /\
   lines [[xff]; [x0a; xc3; xa9]] = [[233%N]] /\
   lines [[xff]; [x0a; xc3; xa9]] <> whole ([xff] ++ [x0a; xc3; xa9])) /\
  (whole [x0a; xc3; xa9] = [[233%N]] /\
   lines [[x0a; xc3]; [xa9]] = [[195%N]] /\
   lines [[x0a; xc3]; [xa9]] <> whole ([x0a; xc3] ++ [xa9])).
Proof.
  repeat split; try reflexivity; vm_compute; discriminate.
Qed.

(** * Further properties of the module *)

(** ** What [data_received] hands over *)

(** X1: every call of [data_received] returns normally and sets the
    last-event time to the clock reading.  If the buffered text followed by
    the decoded chunk contains a terminator, the host receives exactly one
    line, the text after the first terminator without one trailing carriage
    return, and the buffer is emptied; otherwise nothing is delivered and
    the decoded chunk is appended to the buffer. *)
Theorem data_received_delivery_rule
    (data : bytes) (b : backend) (w : world) :
  let text := buffer b ++ decoded data in
  let r := data_received data (b, w) in
  result_of r = Ret tt /\
  last_event_at (self_of r) = Some (clock w (reads w)) /\
  if contains LF text
  then delivered (trace_of r)
       = delivered (trace w) ++ [strip_cr (after_first LF text)] /\
       buffer (self_of r) = []
  else delivered (trace_of r) = delivered (trace w) /\
       buffer (self_of r) = text.
Proof.
  cbv zeta. rewrite data_received_run.
  destruct (contains LF (buffer b ++ decoded data));
    unfold result_of, trace_of, self_of, advance; simpl;
    rewrite ?app_assoc, ?delivered_app, ?delivered_log_only, ?app_nil_r;
    auto.
Qed.

Lemma data_received_state (data : bytes) (b : backend) (w : world) :
  exists b' w',
    data_received data (b, w) = (Ret tt, (b', w')) /\
    contains LF (buffer b') = false /\
    _connected b' = _connected b /\
    transport b' = transport b /\
    (List.length (delivered (trace w'))
     <= S (List.length (delivered (trace w))))%nat.
Proof.
  rewrite data_received_run.
  destruct (contains LF (buffer b ++ decoded data)) eqn:E;
    eexists; eexists; (split; [reflexivity|]); simpl;
    rewrite ?app_assoc, ?delivered_app, ?delivered_log_only, ?app_nil_r,
      ?length_app; simpl; repeat split; auto; lia.
Qed.

(** X2: feeding any chunks returns normally, delivers at most one line per
    chunk whatever the number of terminators received, and, once a chunk
    has been fed, leaves a buffer without terminator. *)
Theorem feed_delivers_at_most_one_line_per_chunk
    (chunks : list bytes) (b : backend) (w : world) :
  let r := feed chunks (b, w) in
  result_of r = Ret tt /\
  (List.length (delivered (trace_of r))
   <= List.length (delivered (trace w)) + List.length chunks)%nat /\
  match chunks with
  | [] => buffer (self_of r) = buffer b
  | _ :: _ => contains LF (buffer (self_of r)) = false
  end.
Proof.
  cbv zeta.
  assert (G : forall cs b0 w0,
             result_of (feed cs (b0, w0)) = Ret tt /\
             (List.length (delivered (trace_of (feed cs (b0, w0))))
              <= List.length (delivered (trace w0)) + List.length cs)%nat /\
             (contains LF (buffer b0) = false ->
              contains LF (buffer (self_of (feed cs (b0, w0)))) = false)).
  { induction cs as [|c rest IH]; intros b0 w0.
    - simpl. unfold ret, result_of, trace_of, self_of; simpl.
      repeat split; auto; lia.
    - destruct (data_received_state c b0 w0)
        as (b1 & w1 & E & Hlf & _ & _ & Hlen).
      assert (Hstep : feed (c :: rest) (b0, w0) = feed rest (b1, w1)).
      { simpl. unfold bind. rewrite E. reflexivity. }
      rewrite Hstep. destruct (IH b1 w1) as (R & L & B).
      repeat split; auto. simpl List.length. lia. }
  destruct chunks as [|c rest].
  - simpl. unfold ret, result_of, trace_of, self_of; simpl.
    repeat split; auto; lia.
  - destruct (G (c :: rest) b w) as (R & L & _).
    split; [exact R|]. split; [exact L|].
    destruct (data_received_state c b w) as (b1 & w1 & E & Hlf & _).
    assert (Hstep : feed (c :: rest) (b, w) = feed rest (b1, w1)).
    { simpl. unfold bind. rewrite E. reflexivity. }
    rewrite Hstep. apply G. exact Hlf.
Qed.

(** ** Terminators and the codecs *)

Lemma contains_cons (c : char) (s : str) :
  contains LF (c :: s) = N.eqb LF c || contains LF s.
Proof. reflexivity. Qed.

Ltac lf_in_step IH :=
  match goal with
  | H : option_map (cons ?c) (utf8 ?r) = Some ?ta |- _ =>
      let E := fresh "E" in
      destruct (utf8 r) eqn:E; [|discriminate H];
      simpl in H; inversion H; subst; clear H;
      rewrite contains_cons
  end.

Lemma utf8_LF_in_bounded (n : nat) :
  forall (a : bytes) (t : str),
    (List.length a <= n)%nat ->
    utf8 a = Some t ->
    In x0a a ->
    contains LF t = true.
Proof.
  induction n as [|n IH]; intros a t Hlen H Hin.
  - destruct a; [destruct Hin|simpl in Hlen; lia].
  - destruct a as [|b0 r0]; [destruct Hin|].
    assert (IH' : forall r s, utf8 r = Some s -> (List.length r <= n)%nat ->
                    In x0a r -> contains LF s = true).
    { intros r s E L I. exact (IH r s L E I). }
    clear IH. simpl in Hlen.
    simpl utf8 in H.
    destruct (ord b0 <? 128)%N.
    { lf_in_step IH'.
      destruct Hin as [Hb|Hr].
      - subst b0. reflexivity.
      - rewrite (IH' r0 _ E) by (auto; lia). apply orb_true_r. }
    destruct (in_range 194 223 b0) eqn:R2.
    { destruct r0 as [|b1 r1]; [discriminate H|].
      destruct (is_cont b1) eqn:C1; [|discriminate H].
      lf_in_step IH'.
      destruct Hin as [Hb|[Hb|Hr]];
        [subst b0; discriminate R2 | subst b1; discriminate C1 |].
      rewrite (IH' r1 _ E) by (auto; simpl in *; lia). apply orb_true_r. }
    destruct (in_range 224 239 b0) eqn:R3.
    { destruct r0 as [|b1 [|b2 r2]]; try discriminate H.
      destruct (second_of_3 (ord b0)) as [lo hi] eqn:S3.
      destruct (in_range lo hi b1) eqn:R31; [|discriminate H].
      destruct (is_cont b2) eqn:C2; [|discriminate H].
      cbn [andb] in H.
      lf_in_step IH'.
      destruct Hin as [Hb|[Hb|[Hb|Hr]]];
        [subst b0; discriminate R3 | | subst b2; discriminate C2 |].
      - subst b1. exfalso. unfold second_of_3 in S3.
        destruct (ord b0 =? 224)%N; [|destruct (ord b0 =? 237)%N];
          inversion S3; subst lo hi; discriminate R31.
      - rewrite (IH' r2 _ E) by (auto; simpl in *; lia). apply orb_true_r. }
    destruct (in_range 240 244 b0) eqn:R4; [|discriminate H].
    destruct r0 as [|b1 [|b2 [|b3 r3]]]; try discriminate H.
    destruct (second_of_4 (ord b0)) as [lo hi] eqn:S4.
    destruct (in_range lo hi b1) eqn:R41; [|discriminate H].
    destruct (is_cont b2) eqn:C2; [|discriminate H].
    destruct (is_cont b3) eqn:C3; [|discriminate H].
    cbn [andb] in H.
    lf_in_step IH'.
    destruct Hin as [Hb|[Hb|[Hb|[Hb|Hr]]]];
      [subst b0; discriminate R4 | | subst b2; discriminate C2
       | subst b3; discriminate C3 |].
    + subst b1. exfalso. unfold second_of_4 in S4.
      destruct (ord b0 =? 240)%N; [|destruct (ord b0 =? 244)%N];
        inversion S4; subst lo hi; discriminate R41.
    + rewrite (IH' r3 _ E) by (auto; simpl in *; lia). apply orb_true_r.
Qed.

Lemma cp1252_char_LF (b : byte) (c : char) :
  cp1252_char b = Some c -> (N.eqb LF c = true <-> b = x0a).
Proof.
  intros H. split.
  - intros E. apply N.eqb_eq in E. subst c.
    destruct b; vm_compute in H; try discriminate H; reflexivity.
  - intros E. subst b. vm_compute in H. inversion H. reflexivity.
Qed.

Lemma cp1252_LF_iff (a : bytes) :
  forall t, cp1252 a = Some t -> (contains LF t = true <-> In x0a a).
Proof.
  induction a as [|b r IH]; intros t H.
  - simpl in H. inversion H. simpl. split; [discriminate|tauto].
  - simpl in H. destruct (cp1252_char b) as [c|] eqn:Ec; [|discriminate H].
    destruct (cp1252 r) as [s|]; [|discriminate H].
    simpl in H. inversion H; subst t. clear H.
    rewrite contains_cons, orb_true_iff, (@cp1252_char_LF _ _ Ec), (IH s eq_refl).
    simpl. intuition congruence.
Qed.

Lemma iso8859_1_LF_iff (a : bytes) :
  contains LF (map ord a) = true <-> In x0a a.
Proof.
  induction a as [|b r IH]; [simpl; split; [discriminate|tauto]|].
  cbn [map In].
  rewrite contains_cons, orb_true_iff, IH, N.eqb_eq.
  split; intros [H|H]; auto.
  - left. apply ord_LF. symmetry. exact H.
  - left. subst b. reflexivity.
Qed.

(** Decoding neither loses nor invents a terminator. *)
Lemma decoded_LF_iff (data : bytes) :
  contains LF (decoded data) = true <-> In x0a data.
Proof.
  unfold decoded. simpl unicode.
  destruct (utf8 data) as [t|] eqn:E1.
  - split.
    + intros H. destruct (in_dec Byte.byte_eq_dec x0a data) as [I|N]; [exact I|].
      rewrite (@utf8_no_LF_bounded _ _ _ (le_n _) E1 N) in H. discriminate H.
    + exact (@utf8_LF_in_bounded _ _ _ (le_n _) E1).
  - destruct (cp1252 data) as [t|] eqn:E2.
    + exact (@cp1252_LF_iff _ _ E2).
    + apply iso8859_1_LF_iff.
Qed.

(** X3: on a backend whose buffer holds no terminator, a chunk makes
    [data_received] deliver a line exactly when it contains the byte 0x0A,
    whichever of the three codecs decodes it: with the byte one line is
    delivered and the buffer is emptied, without it nothing is delivered
    and the decoded chunk is kept. *)
Theorem data_received_delivers_iff_terminator_byte
    (data : bytes) (b : backend) (w : world) :
  contains LF (buffer b) = false ->
  let r := data_received data (b, w) in
  (In x0a data ->
   delivered (trace_of r)
   = delivered (trace w)
     ++ [strip_cr (after_first LF (buffer b ++ decoded data))] /\
   buffer (self_of r) = []) /\
  (~ In x0a data ->
   delivered (trace_of r) = delivered (trace w) /\
   buffer (self_of r) = buffer b ++ decoded data).
Proof.
  intros Hbuf. cbv zeta. rewrite data_received_run.
  rewrite contains_app, Hbuf. simpl orb.
  split; intros Hin.
  - apply decoded_LF_iff in Hin. rewrite Hin.
    unfold trace_of, self_of, advance; simpl.
    rewrite app_assoc, !delivered_app, delivered_log_only, app_nil_r. auto.
  - destruct (contains LF (decoded data)) eqn:E.
    { apply decoded_LF_iff in E. contradiction. }
    unfold trace_of, self_of, advance; simpl.
    rewrite delivered_app, delivered_log_only, app_nil_r. auto.
Qed.

Lemma data_received_delivers_iff_terminator_byte_witness :
  let euro_lf_x_cr := [x80; x0a; x78; x0d] in
  delivered (trace_of (data_received euro_lf_x_cr fresh)) = [[120%N]] /\
  delivered (trace_of (data_received [x80; x78] fresh)) = [].
Proof.
  intros euro_lf_x_cr.
  destruct (@data_received_delivers_iff_terminator_byte
              euro_lf_x_cr (fst fresh) (snd fresh) eq_refl) as [H _].
  destruct (@data_received_delivers_iff_terminator_byte
              [x80; x78] (fst fresh) (snd fresh) eq_refl) as [_ H'].
  split.
  - destruct H as [D _]; [vm_compute; tauto|]. exact D.
  - destruct H' as [D _]; [vm_compute; intuition discriminate|]. exact D.
Defined.

(** ** [found_terminator] and [collect_incoming_data] *)

Lemma endswith_last (c x : char) (s : str) :
  endswith c (s ++ [x]) = N.eqb x c.
Proof.
  induction s as [|a r IH]; [reflexivity|].
  cbn [app endswith].
  destruct (r ++ [x]) eqn:E; [|exact IH].
  exfalso. exact (app_cons_not_nil _ _ _ (eq_sym E)).
Qed.

Lemma found_terminator_run (b : backend) (w : world) :
  found_terminator (b, w)
  = (Ret tt,
     (with_buffer [] b, advance 0 [OnMessage (strip_cr (buffer b))] w)).
Proof. reflexivity. Qed.

(** X4: [found_terminator] hands over the buffer without exactly one
    trailing carriage return: a buffer ending in a carriage return loses
    that one only (a second one before it stays), any other buffer,
    the empty one included, is handed over as it is; the buffer is empty
    afterwards. *)
Theorem found_terminator_strips_one_cr
    (s : str) (c : char) (b : backend) (w : world) :
  c <> CR ->
  let run := fun text => found_terminator (with_buffer text b, w) in
  trace_of (run (s ++ [CR])) = trace w ++ [OnMessage s] /\
  trace_of (run (s ++ [CR; CR])) = trace w ++ [OnMessage (s ++ [CR])] /\
  trace_of (run (s ++ [c])) = trace w ++ [OnMessage (s ++ [c])] /\
  trace_of (run []) = trace w ++ [OnMessage []] /\
  buffer (self_of (run (s ++ [CR]))) = [].
Proof.
  intros Hc. cbv beta zeta. rewrite !found_terminator_run.
  unfold trace_of, self_of, advance, strip_cr, drop_last; simpl.
  replace (s ++ [CR; CR]) with ((s ++ [CR]) ++ [CR])
    by (rewrite <- app_assoc; reflexivity).
  rewrite !endswith_last, !removelast_last, N.eqb_refl.
  destruct (N.eqb_spec c CR) as [E|_]; [contradiction|].
  repeat split.
Qed.

Lemma found_terminator_strips_one_cr_witness :
  trace_of (found_terminator
              (with_buffer ([104; 105] ++ [CR; CR])%N (fst fresh), snd fresh))
  = [OnMessage [104; 105; 13]%N].
Proof.
  destruct (@found_terminator_strips_one_cr
              [104; 105]%N 97%N (fst fresh) (snd fresh)) as (_ & H & _).
  - discriminate.
  - exact H.
Defined.

Lemma utf8_ascii (data : bytes) :
  Forall (fun x => (ord x < 128)%N) data -> utf8 data = Some (map ord data).
Proof.
  induction 1 as [|x r Hx _ IH]; [reflexivity|].
  simpl. apply N.ltb_lt in Hx. rewrite Hx, IH. reflexivity.
Qed.

(** X5: a chunk of ASCII bytes is decoded to the same code points, byte for
    byte, and that text is what [collect_incoming_data] appends to the
    buffer. *)
Theorem ascii_chunk_is_kept_verbatim
    (data : bytes) (b : backend) (w : world) :
  Forall (fun x => (ord x < 128)%N) data ->
  decoded data = map ord data /\
  buffer (self_of (collect_incoming_data data (b, w)))
  = buffer b ++ map ord data.
Proof.
  intros H. pose proof (@decoded_utf8 _ _ (utf8_ascii H)) as E.
  rewrite collect_incoming_data_run. unfold self_of; simpl.
  rewrite E. auto.
Qed.

Lemma ascii_chunk_is_kept_verbatim_witness :
  buffer (self_of (collect_incoming_data [x50; x49; x4e; x47] fresh))
  = [80; 73; 78; 71]%N.
Proof.
  destruct (@ascii_chunk_is_kept_verbatim
              [x50; x49; x4e; x47] (fst fresh) (snd fresh)) as [_ H].
  - repeat constructor.
  - exact H.
Defined.

(** X6: [collect_incoming_data] passes the decoded text of every chunk that
    is not empty to [bot.log_raw] and makes no other call; an empty chunk
    is not logged and leaves the buffer as it is, but still moves the
    last-event time to the clock reading. *)
Theorem collect_incoming_data_logs_nonempty_chunks
    (data : bytes) (b : backend) (w : world) :
  trace_of (collect_incoming_data data (b, w))
  = trace w ++ match data with
               | [] => []
               | _ :: _ => [LogRaw (decoded data)]
               end /\
  buffer (self_of (collect_incoming_data [] (b, w))) = buffer b /\
  last_event_at (self_of (collect_incoming_data [] (b, w)))
  = Some (clock w (reads w)).
Proof.
  rewrite !collect_incoming_data_run.
  unfold trace_of, self_of, advance; simpl.
  split; [|split; [apply app_nil_r|reflexivity]].
  destruct data as [|x r]; [reflexivity|].
  assert (N : x :: r <> []) by discriminate.
  apply decoded_nonempty in N.
  destruct (decoded (x :: r)); [contradiction|reflexivity].
Qed.

(** ** Connecting, sending and closing *)

Lemma handle_close_closed (b : backend) (w : world) :
  handle_close (b, w) = (Ret tt, (closed b, advance 0 (close_calls b) w)).
Proof. rewrite handle_close_run. reflexivity. Qed.

Lemma initiate_connect_failure_run
    (res : connect_result) (h : string) (p : Z) (a : string)
    (b : backend) (w : world) :
  (forall t, res <> Connected t) ->
  initiate_connect res h p a (b, w)
  = (Ret tt,
     (closed (with_target h p a b), advance 0 (close_calls b) w)).
Proof.
  intros Hres.
  destruct res as [t| |e]; [exfalso; exact (Hres t eq_refl)| |];
    unfold initiate_connect, try_except_else, create_connection, bind, raise;
    simpl; [|destruct (exn_eqb e OSError)];
    rewrite handle_close_closed; reflexivity.
Qed.

Lemma initiate_connect_success_run
    (t : transport_id) (h : string) (p : Z) (a : string)
    (b : backend) (w : world) :
  initiate_connect (Connected t) h p a (b, w)
  = (Ret tt,
     (with_connected true
        (with_protocol (Some tt)
           (with_transport (Some t)
              (with_transport (Some t) (with_target h p a b)))),
      advance 0 [SchedulerStart; OnConnect] w)).
Proof.
  unfold initiate_connect, try_except_else, create_connection,
    connection_made, handle_connect, bind, emit, set_self, ret, advance;
    simpl.
  rewrite <- app_assoc. reflexivity.
Qed.



(** X8: a successful connect followed by [handle_close] starts and stops
    the scheduler, signals [on_connect] and then [on_close] once each,
    closes the very transport that the connect obtained, and leaves the
    backend disconnected and without transport, with its target and its
    buffer kept. *)
Theorem connect_then_close
    (t : transport_id) (h : string) (p : Z) (a : string)
    (b : backend) (w : world) :
  let r := (initiate_connect (Connected t) h p a ;; handle_close) (b, w) in
  result_of r = Ret tt /\
  trace_of r
  = trace w ++ [SchedulerStart; OnConnect;
                SchedulerStop; TransportClose t; OnClose] /\
  _connected (self_of r) = false /\
  transport (self_of r) = None /\
  host (self_of r) = Some h /\
  buffer (self_of r) = buffer b.
Proof.
  cbv zeta. unfold bind.
  rewrite initiate_connect_success_run, handle_close_closed.
  unfold result_of, trace_of, self_of, advance, close_calls; simpl.
  rewrite <- app_assoc. repeat split.
Qed.

(** X9: after a successful connect, [irc_send] writes each message to the
    connected transport, unchanged and in the order of the calls; after
    [handle_close] it returns normally without writing anything. *)
Theorem irc_send_follows_connection
    (t : transport_id) (h : string) (p : Z) (a : string)
    (d1 d2 : bytes) (b : backend) (w : world) :
  trace_of ((initiate_connect (Connected t) h p a ;;
             irc_send d1 ;; irc_send d2) (b, w))
  = trace w ++ [SchedulerStart; OnConnect;
                TransportWrite t d1; TransportWrite t d2] /\
  (handle_close ;; irc_send d1) (b, w) = handle_close (b, w).
Proof.
  split.
  - unfold bind at 1. rewrite initiate_connect_success_run.
    unfold irc_send, bind, get_self, emit, trace_of, advance; simpl.
    rewrite <- !app_assoc. reflexivity.
  - unfold bind at 1. rewrite handle_close_closed. reflexivity.
Qed.

(** ** The watchdog jobs, step by step *)

Lemma jobs_idle_when_disconnected (b : backend) (w : world) :
  _connected b = false ->
  _send_ping (b, w) = (Ret tt, (b, w)) /\
  _check_timeout (b, w) = (Ret tt, (b, w)).
Proof.
  intros Hc.
  unfold _send_ping, _check_timeout, is_connected, bind, get_self, ret;
    simpl.
  rewrite Hc. split; reflexivity.
Qed.

Lemma check_timeout_run (b : backend) (w : world) (t : datetime) :
  _connected b = true ->
  last_event_at b = Some t ->
  _check_timeout (b, w)
  = if Qgt_bool (total_seconds (clock w (reads w) - t)%Z) (server_timeout b)
    then (Ret tt,
          (closed (with_buffer [] b), advance 1 (close_calls b) w))
    else (Ret tt, (b, advance 1 [] w)).
Proof.
  intros Hc He.
  unfold _check_timeout, is_connected, bind, get_self, ret, utcnow; simpl.
  rewrite Hc; simpl. rewrite He; simpl.
  destruct (Qgt_bool _ _).
  - unfold discard_buffers, set_self; simpl. rewrite handle_close_closed.
    reflexivity.
  - unfold advance; simpl. rewrite app_nil_r. reflexivity.
Qed.

Lemma send_ping_run (b : backend) (w : world) :
  _connected b = true ->
  _send_ping (b, w)
  = match most_recent b with
    | None =>
        if ping_raises w then (Ret tt, (b, w))
        else (Ret tt,
              (with_last_ping_at (Some (clock w (reads w))) b,
               advance 1 [SendPing (host b)] w))
    | Some t =>
        if Qgt_bool (total_seconds (clock w (reads w) - t)%Z)
             (ping_interval b)
        then
          if ping_raises w then (Ret tt, (b, advance 1 [] w))
          else (Ret tt,
                (with_last_ping_at (Some (clock w (S (reads w)))) b,
                 advance 2 [SendPing (host b)] w))
        else (Ret tt, (b, advance 1 [] w))
    end.
Proof.
  destruct b as [bf st pi le lp h p a t pr c], w as [tr ck rd pf].
  simpl. intros Hc; subst c.
  unfold most_recent, advance.
  destruct le as [e|], lp as [q|];
    cbn -[Qgt_bool total_seconds Z.sub Z.max];
    try (destruct (Qgt_bool _ pi));
    destruct pf; cbn -[Qgt_bool total_seconds Z.sub Z.max];
    rewrite ?app_nil_r; reflexivity.
Qed.

(** X10: on a connected backend with a last-event time, the timeout job
    returns normally and closes exactly when more than the server timeout
    has passed since that time: then the buffer is emptied, the backend is
    closed and [on_close] is signalled; at the timeout itself or before,
    nothing is called and the backend is unchanged. *)
Theorem check_timeout_rule (b : backend) (w : world) (t : datetime) :
  _connected b = true ->
  last_event_at b = Some t ->
  let r := _check_timeout (b, w) in
  let elapsed := total_seconds (clock w (reads w) - t)%Z in
  result_of r = Ret tt /\
  ((server_timeout b < elapsed)%Q ->
   self_of r = closed (with_buffer [] b) /\
   trace_of r = trace w ++ close_calls b) /\
  ((elapsed <= server_timeout b)%Q ->
   self_of r = b /\ trace_of r = trace w).
Proof.
  intros Hc He. cbv zeta. rewrite (@check_timeout_run b w t Hc He).
  destruct (Qgt_bool _ _) eqn:Hq;
    [apply Qgt_bool_true in Hq | apply Qgt_bool_false in Hq];
    unfold result_of, self_of, trace_of, advance; simpl;
    (split; [reflexivity|]); split; intros H.
  - auto.
  - exfalso. exact (Qlt_not_le _ _ Hq H).
  - contradiction.
  - rewrite app_nil_r. auto.
Qed.

Lemma check_timeout_rule_witness :
  let b := with_last_event_at (Some 0%Z)
             (with_transport (Some 3)
                (with_connected true (__init__ None None))) in
  (self_of (_check_timeout (b, quiet_world 120000000%Z)) = b) /\
  (trace_of (_check_timeout (b, quiet_world 120000001%Z))
   = [SchedulerStop; TransportClose 3; OnClose]).
Proof.
  intros b.
  destruct (@check_timeout_rule b (quiet_world 120000000%Z) 0%Z
              eq_refl eq_refl) as (_ & _ & Hkeep).
  destruct (@check_timeout_rule b (quiet_world 120000001%Z) 0%Z
              eq_refl eq_refl) as (_ & Hfire & _).
  split.
  - destruct Hkeep as [S _]; [vm_compute; discriminate|exact S].
  - destruct Hfire as [_ T]; [vm_compute; reflexivity|exact T].
Defined.

Lemma data_received_effect (data : bytes) (b : backend) (w : world) :
  exists b' tr,
    data_received data (b, w) = (Ret tt, (b', advance 1 tr w)) /\
    last_event_at b' = Some (clock w (reads w)) /\
    _connected b' = _connected b /\
    transport b' = transport b /\
    server_timeout b' = server_timeout b.
Proof.
  rewrite data_received_run.
  destruct (contains LF (buffer b ++ decoded data));
    eexists; eexists; (split; [reflexivity|]); simpl; auto.
Qed.

(** X11: once a chunk has been received the timeout job cannot fail: on a
    connected backend, [data_received] followed by [_check_timeout] returns
    normally for every chunk, every earlier state of the backend and every
    clock. *)
Theorem check_timeout_returns_after_data
    (data : bytes) (b : backend) (w : world) :
  _connected b = true ->
  result_of ((data_received data ;; _check_timeout) (b, w)) = Ret tt.
Proof.
  intros Hc.
  destruct (data_received_effect data b w) as (b' & tr & E & He & Hc' & _).
  unfold bind. rewrite E.
  rewrite (@check_timeout_run b' (advance 1 tr w) _ (eq_trans Hc' Hc) He).
  destruct (Qgt_bool _ _); reflexivity.
Qed.

Lemma check_timeout_returns_after_data_witness :
  let b := with_connected true (with_transport (Some 3) (__init__ None None)) in
  result_of (_check_timeout (b, quiet_world 0%Z)) = Raise TypeError /\
  result_of ((data_received [] ;; _check_timeout) (b, quiet_world 0%Z))
  = Ret tt.
Proof.
  intros b. split; [reflexivity|].
  exact (@check_timeout_returns_after_data [] b (quiet_world 0%Z) eq_refl).
Defined.

(** X12: receiving a chunk puts the timeout off: if the timeout job reads
    the clock no more than the server timeout after the reading taken by
    [data_received], it calls nothing and the backend stays connected with
    its transport. *)
Theorem data_received_defers_timeout
    (data : bytes) (b : backend) (w : world) :
  _connected b = true ->
  (total_seconds (clock w (S (reads w)) - clock w (reads w))%Z
   <= server_timeout b)%Q ->
  let r := (data_received data ;; _check_timeout) (b, w) in
  _connected (self_of r) = true /\
  transport (self_of r) = transport b /\
  trace_of r = trace_of (data_received data (b, w)).
Proof.
  intros Hc Hle. cbv zeta.
  destruct (data_received_effect data b w)
    as (b' & tr & E & He & Hc' & Ht & Hs).
  unfold bind. rewrite E.
  rewrite (@check_timeout_run b' (advance 1 tr w) _ (eq_trans Hc' Hc) He).
  simpl reads. simpl clock. rewrite Hs.
  destruct (Qgt_bool _ _) eqn:Hq.
  - apply Qgt_bool_true in Hq. exfalso. exact (Qlt_not_le _ _ Hq Hle).
  - unfold self_of, trace_of, advance; simpl.
    rewrite app_nil_r, Hc', Hc, Ht. auto.
Qed.

Lemma data_received_defers_timeout_witness :
  let b := with_last_event_at (Some 0%Z)
             (with_transport (Some 3)
                (with_connected true (__init__ None None))) in
  let w := quiet_world 500000000%Z in
  _connected (self_of (_check_timeout (b, w))) = false /\
  _connected (self_of ((data_received [x61] ;; _check_timeout) (b, w)))
  = true.
Proof.
  intros b w. split; [reflexivity|].
  destruct (@data_received_defers_timeout [x61] b w eq_refl) as [H _].
  - vm_compute; discriminate.
  - exact H.
Defined.

Lemma jobs_idle_run (cs : list call) :
  Forall (fun c => c = CallSendPingJob \/ c = CallCheckTimeoutJob) cs ->
  forall b w, _connected b = false -> run_calls cs (b, w) = (b, w).
Proof.
  induction 1 as [|c r Hc _ IH]; intros b w Hd; [reflexivity|].
  destruct (@jobs_idle_when_disconnected b w Hd) as [Hp Ht].
  simpl. destruct Hc as [Hc|Hc]; subst c; simpl;
    rewrite ?Hp, ?Ht; simpl; apply IH; exact Hd.
Qed.

(** X13: a server timeout closes once.  On a connected backend whose last
    event is older than the server timeout, the timeout job followed by
    any further runs of the two jobs signals [on_close] exactly once: the
    first run closes, and every later run of either job finds the backend
    disconnected and does nothing. *)
Theorem timeout_closes_once
    (cs : list call) (b : backend) (w : world) (t : datetime) :
  Forall (fun c => c = CallSendPingJob \/ c = CallCheckTimeoutJob) cs ->
  _connected b = true ->
  last_event_at b = Some t ->
  (server_timeout b < total_seconds (clock w (reads w) - t)%Z)%Q ->
  let s := run_calls (CallCheckTimeoutJob :: cs) (b, w) in
  fst s = closed (with_buffer [] b) /\
  trace (snd s) = trace w ++ close_calls b /\
  count_event is_on_close (close_calls b) = 1%nat.
Proof.
  intros Hjobs Hc He Hlt. cbv zeta. simpl run_calls.
  rewrite (@check_timeout_run b w t Hc He).
  apply Qgt_bool_true in Hlt. rewrite Hlt. simpl snd.
  rewrite (jobs_idle_run Hjobs) by reflexivity.
  simpl. unfold close_calls. destruct (transport b); auto.
Qed.

Lemma timeout_closes_once_witness :
  let b := with_last_event_at (Some 0%Z)
             (with_transport (Some 3)
                (with_connected true (__init__ None None))) in
  trace (snd (run_calls
                [CallCheckTimeoutJob; CallSendPingJob; CallCheckTimeoutJob]
                (b, quiet_world 500000000%Z)))
  = [SchedulerStop; TransportClose 3; OnClose].
Proof.
  intros b.
  destruct (@timeout_closes_once
              [CallSendPingJob; CallCheckTimeoutJob] b
              (quiet_world 500000000%Z) 0%Z) as (_ & T & _).
  - constructor; [left; reflexivity|].
    constructor; [right; reflexivity|]. constructor.
  - reflexivity.
  - reflexivity.
  - vm_compute; reflexivity.
  - exact T.
Defined.

Lemma total_seconds_le (x y : Z) :
  (x <= y)%Z -> (total_seconds x <= total_seconds y)%Q.
Proof.
  intros H. unfold total_seconds, Qle; simpl. lia.
Qed.

Lemma Qgt_bool_le_false (x y : Q) : (x <= y)%Q -> Qgt_bool x y = false.
Proof.
  intros H. apply Qgt_bool_false. intros Hlt. exact (Qlt_not_le _ _ Hlt H).
Qed.

(** X14: pings are spaced.  When the job has sent a PING and recorded the
    time, a run that reads the clock no more than the ping interval after
    the recorded time sends nothing and changes nothing in the backend,
    whatever the last-event time is. *)
Theorem send_ping_not_repeated (b : backend) (w : world) :
  _connected b = true ->
  ping_raises w = false ->
  ping_due b (clock w (reads w)) ->
  let k := match most_recent b with Some _ => 1%nat | None => 0%nat end in
  let sent := clock w (k + reads w) in
  let next := clock w (S k + reads w) in
  (total_seconds (next - sent)%Z <= ping_interval b)%Q ->
  let s1 := snd (_send_ping (b, w)) in
  last_ping_at (fst s1) = Some sent /\
  trace (snd s1) = trace w ++ [SendPing (host b)] /\
  self_of (_send_ping s1) = fst s1 /\
  trace_of (_send_ping s1) = trace (snd s1).
Proof.
  intros Hc Hr Hdue. cbv zeta.
  rewrite (@send_ping_run b w Hc). unfold ping_due in Hdue.
  assert (Hmax : forall e s n : Z,
             (total_seconds (n - s)%Z <= ping_interval b)%Q ->
             Qgt_bool (total_seconds (n - Z.max e s)%Z) (ping_interval b)
             = false).
  { intros e s n H. apply Qgt_bool_le_false.
    eapply Qle_trans; [apply total_seconds_le|exact H]. lia. }
  destruct b as [bf st pi le lp h p a t pr c], w as [tr ck rd pf].
  simpl in Hc, Hr, Hmax. subst c pf.
  unfold most_recent in *. simpl in Hdue |- *.
  destruct le as [e|], lp as [q|]; simpl in Hdue |- *;
    try (apply Qgt_bool_true in Hdue; rewrite Hdue);
    intros Hle; cbn [snd fst last_ping_at trace advance];
    rewrite send_ping_run by reflexivity;
    unfold most_recent; cbn -[Qgt_bool total_seconds Z.sub Z.max];
    rewrite ?Hmax by exact Hle;
    rewrite ?(Qgt_bool_le_false Hle);
    unfold self_of, trace_of, advance; simpl; rewrite ?app_nil_r;
    repeat split.
Qed.

Lemma send_ping_not_repeated_witness :
  let b := with_last_event_at (Some 0%Z)
             (with_target "irc.example.net" 6667 "0.0.0.0"
                (with_connected true (__init__ None None))) in
  let w := quiet_world 60000000%Z in
  trace_of ((_send_ping ;; _send_ping) (b, w))
  = [SendPing (Some "irc.example.net")].
Proof.
  intros b w.
  destruct (@send_ping_not_repeated b w eq_refl eq_refl) as (_ & T & _ & T').
  - vm_compute; reflexivity.
  - vm_compute; discriminate.
  - assert (E : (_send_ping ;; _send_ping) (b, w)
                = _send_ping (snd (_send_ping (b, w)))) by reflexivity.
    rewrite E, T', T. reflexivity.
Defined.

(** ** Invariants over series of calls *)






(** X16: every way of closing ends alike.  [connection_lost],
    [on_scheduler_error], [on_job_error] and [on_irc_error] after the bot
    has quit each return normally, stop the scheduler, close the transport
    if there is one, leave the backend disconnected and without transport
    and signal [on_close] exactly once; only [on_irc_error] also empties
    the buffer, and before the bot has quit it does nothing at all. *)
Theorem close_paths_agree (b : backend) (w : world) :
  connection_lost (b, w)
  = (Ret tt, (closed b, advance 0 (close_calls b) w)) /\
  on_scheduler_error (b, w) = connection_lost (b, w) /\
  on_job_error (b, w) = connection_lost (b, w) /\
  on_irc_error true (b, w)
  = (Ret tt, (closed (with_buffer [] b), advance 0 (close_calls b) w)) /\
  on_irc_error false (b, w) = (Ret tt, (b, w)) /\
  count_event is_on_close (close_calls b) = 1%nat /\
  count_event is_transport_close (close_calls b)
  = match transport b with Some _ => 1%nat | None => 0%nat end.
Proof.
  unfold connection_lost, on_scheduler_error, on_job_error, on_irc_error,
    bind, discard_buffers, set_self; simpl.
  rewrite !handle_close_closed.
  unfold close_calls, count_event; simpl.
  destruct (transport b); simpl; repeat split; reflexivity.
Qed.

(** ** The SSL backend *)

(** X21: configuring the context never fails, and it gives up
    verification only on request: with [verify_ssl] true (the default when
    the argument is omitted) the connection is attempted with a context
    that checks the hostname and requires a certificate, with [verify_ssl]
    false with one that does neither.  Provided the CA file, if one is
    given, loads, the result of that one attempt is then handled exactly
    as by the plain backend. *)
Theorem ssl_initiate_connect_policy
    (self_ssl : SSLAsynchatBackend.attrs) (env : SSLAsynchatBackend.ssl_world)
    (h : string) (p : Z) (a : string) (b : backend) (w : world) :
  SSLAsynchatBackend.ca_certs self_ssl = None \/
  SSLAsynchatBackend.cafile_raises env = false ->
  let context :=
    if SSLAsynchatBackend.verify_ssl self_ssl
    then SSLAsynchatBackend.mkContext true SSLAsynchatBackend.CERT_REQUIRED
    else SSLAsynchatBackend.mkContext false SSLAsynchatBackend.CERT_NONE in
  SSLAsynchatBackend.initiate_connect self_ssl env h p a (b, w)
  = AsynchatBackend.initiate_connect
      (SSLAsynchatBackend.attempt env context) h p a (b, w) /\
  SSLAsynchatBackend.verify_ssl
    (fst (SSLAsynchatBackend.__init__ None (SSLAsynchatBackend.ca_certs self_ssl)
            None None)) = true.
Proof.
  intros Hca. cbv zeta. split; [|reflexivity].
  unfold SSLAsynchatBackend.initiate_connect, AsynchatBackend.initiate_connect.
  unfold bind at 1 5. unfold set_self at 1 5. cbv beta iota.
  unfold bind at 1. unfold SSLAsynchatBackend.create_default_context.
  assert (E : match SSLAsynchatBackend.ca_certs self_ssl with
              | Some _ =>
                  if SSLAsynchatBackend.cafile_raises env
                  then raise OSError
                  else ret (SSLAsynchatBackend.mkContext true
                              SSLAsynchatBackend.CERT_REQUIRED)
              | None => ret (SSLAsynchatBackend.mkContext true
                               SSLAsynchatBackend.CERT_REQUIRED)
              end
              = ret (SSLAsynchatBackend.mkContext true
                       SSLAsynchatBackend.CERT_REQUIRED)).
  { destruct (SSLAsynchatBackend.ca_certs self_ssl); [|reflexivity].
    destruct Hca as [Hca|Hca]; [discriminate Hca|rewrite Hca; reflexivity]. }
  rewrite E. unfold ret at 1. cbv beta iota.
  unfold bind at 1.
  destruct (SSLAsynchatBackend.verify_ssl self_ssl); reflexivity.
Qed.

Lemma ssl_initiate_connect_policy_witness :
  let env := SSLAsynchatBackend.mkSslWorld true
               (fun c => if SSLAsynchatBackend.check_hostname c
                         then SocketError else Connected 5) in
  let on := fst (SSLAsynchatBackend.__init__ None None None None) in
  let off := fst (SSLAsynchatBackend.__init__ (Some false) None None None) in
  trace_of (SSLAsynchatBackend.initiate_connect on env
              "irc.example.net" 6697 "0.0.0.0" fresh)
  = [SchedulerStop; OnClose] /\
  trace_of (SSLAsynchatBackend.initiate_connect off env
              "irc.example.net" 6697 "0.0.0.0" fresh)
  = [SchedulerStart; OnConnect].
Proof.
  intros env on off.
  destruct (@ssl_initiate_connect_policy on env
              "irc.example.net" 6697 "0.0.0.0" (fst fresh) (snd fresh)
              (or_introl eq_refl)) as [Eon _].
  destruct (@ssl_initiate_connect_policy off env
              "irc.example.net" 6697 "0.0.0.0" (fst fresh) (snd fresh)
              (or_introl eq_refl)) as [Eoff _].
  split.
  - exact (f_equal (@trace_of unit) Eon).
  - exact (f_equal (@trace_of unit) Eoff).
Defined.



(** ** The TLS certificate check *)

Lemma ssl_initiate_connect_run
    (self_ssl : SSLAsynchatBackend.attrs) (env : SSLAsynchatBackend.ssl_world)
    (h : string) (p : Z) (a : string) (b : backend) (w : world) :
  SSLAsynchatBackend.ca_certs self_ssl = None \/
  SSLAsynchatBackend.cafile_raises env = false ->
  SSLAsynchatBackend.initiate_connect self_ssl env h p a (b, w)
  = AsynchatBackend.initiate_connect
      (SSLAsynchatBackend.attempt env
         (SSLAsynchatBackend.mkContext
            (SSLAsynchatBackend.verify_ssl self_ssl)
            (if SSLAsynchatBackend.verify_ssl self_ssl
             then SSLAsynchatBackend.CERT_REQUIRED
             else SSLAsynchatBackend.CERT_NONE)))
      h p a (b, w).
Proof.
  intros Hca.
  destruct self_ssl as [v ca], env as [raises att]. simpl in Hca |- *.
  unfold SSLAsynchatBackend.initiate_connect, AsynchatBackend.initiate_connect,
    SSLAsynchatBackend.create_default_context; simpl.
  destruct ca as [path|].
  - destruct Hca as [Hca|Hca]; [discriminate Hca|subst raises].
    destruct v; reflexivity.
  - destruct v; reflexivity.
Qed.

(** C9, as the code has it.  With certificate verification enabled (and
    the CA file, if one is configured, loading), whenever the peer
    certificate matches neither the configured host nor any of its CNAME
    aliases, the connection does not proceed: the connection attempt of the
    SSL backend fails, the backend is closed through [handle_close] and
    [on_close] is signalled once, without [on_connect].  The outcome is the
    very one of a generic handshake failure, so no distinct condition
    reaches the host; it differs from disabled verification, where the
    handshake completes and the connection proceeds to [on_connect]. *)
Theorem tls_mismatch_closes_like_handshake_failure
    (self_ssl : SSLAsynchatBackend.attrs) (tls : tls_env)
    (h : string) (p : Z) (a : string) (t : transport_id)
    (b : backend) (w : world) :
  SSLAsynchatBackend.ca_certs self_ssl = None \/ load_raises tls = false ->
  let connect :=
    SSLAsynchatBackend.initiate_connect self_ssl (tls_world tls h t) h p a
      (b, w) in
  (SSLAsynchatBackend.verify_ssl self_ssl = true ->
   certificate_mismatch tls h ->
   connect
   = (Ret tt, (closed (with_target h p a b), advance 0 (close_calls b) w))) /\
  (SSLAsynchatBackend.verify_ssl self_ssl = true ->
   handshake_raises tls = true ->
   connect
   = (Ret tt, (closed (with_target h p a b), advance 0 (close_calls b) w))) /\
  (SSLAsynchatBackend.verify_ssl self_ssl = false ->
   handshake_raises tls = false ->
   result_of connect = Ret tt /\
   _connected (self_of connect) = true /\
   trace_of connect = trace w ++ [SchedulerStart; OnConnect]) /\
  count_event is_on_close (close_calls b) = 1%nat /\
  ~ In OnConnect (close_calls b).
Proof.
  intros Hca. cbv zeta.
  rewrite (@ssl_initiate_connect_run self_ssl (tls_world tls h t) h p a b w Hca).
  simpl SSLAsynchatBackend.attempt.
  unfold tls_attempt, handshake_fails.
  split; [|split; [|split; [|split]]].
  - intros Hv [Hm _]. rewrite Hv, Hm. simpl.
    rewrite orb_true_r.
    apply initiate_connect_failure_run. discriminate.
  - intros Hv Hh. rewrite Hv, Hh. simpl.
    apply initiate_connect_failure_run. discriminate.
  - intros Hv Hh. rewrite Hv, Hh. simpl.
    rewrite initiate_connect_success_run.
    unfold result_of, self_of, trace_of; simpl. auto.
  - unfold close_calls. destruct (transport b); reflexivity.
  - unfold close_calls. destruct (transport b); simpl; intuition discriminate.
Qed.

Lemma tls_mismatch_closes_like_handshake_failure_witness :
  let verifying := fst (SSLAsynchatBackend.__init__ None None None None) in
  let trusting :=
    fst (SSLAsynchatBackend.__init__ (Some false) None None None) in
  let connect := fun attrs =>
    SSLAsynchatBackend.initiate_connect attrs
      (tls_world mismatching_env "irc.example.net" 5)
      "irc.example.net" 6697 "0.0.0.0" fresh in
  trace_of (connect verifying) = [SchedulerStop; OnClose] /\
  trace_of (connect trusting) = [SchedulerStart; OnConnect].
Proof.
  intros verifying trusting connect.
  assert (Hm : certificate_mismatch mismatching_env "irc.example.net").
  { split; [reflexivity | intros name _; reflexivity]. }
  destruct (@tls_mismatch_closes_like_handshake_failure verifying
              mismatching_env "irc.example.net" 6697 "0.0.0.0" 5
              (fst fresh) (snd fresh) (or_introl eq_refl))
    as (Hclose & _).
  destruct (@tls_mismatch_closes_like_handshake_failure trusting
              mismatching_env "irc.example.net" 6697 "0.0.0.0" 5
              (fst fresh) (snd fresh) (or_introl eq_refl))
    as (_ & _ & Hopen & _).
  split.
  - exact (f_equal (@trace_of unit) (Hclose eq_refl Hm)).
  - destruct (Hopen eq_refl eq_refl) as (_ & _ & T). exact T.
Defined.

(** C9 fails as stated.  With verification on, a certificate that matches
    no name and a handshake that fails although the certificate matches
    every name lead to the same state and the same calls, one [on_close]:
    the host cannot tell the mismatch from a generic handshake failure.
    The hostname check of [IRCProtocol.handle_connect] does not run at
    all: on the protocol object it raises [AttributeError] and signals
    nothing. *)
Lemma tls_mismatch_not_distinct :
  let verifying := fst (SSLAsynchatBackend.__init__ None None None None) in
  let connect := fun env =>
    SSLAsynchatBackend.initiate_connect verifying
      (tls_world env "irc.example.net" 5)
      "irc.example.net" 6697 "0.0.0.0" fresh in
  certificate_mismatch mismatching_env "irc.example.net" /\
  connect mismatching_env = connect failing_handshake_env /\
  notifications (trace_of (connect mismatching_env)) = [OnClose] /\
  IRCProtocol.handle_connect IRCProtocol.__init__ mismatching_env fresh
  = (Raise AttributeError, fresh).
Proof.
  split; [split; [reflexivity | intros name _; reflexivity]|].
  repeat split; reflexivity.
Qed.

(** X17: [IRCProtocol.handle_connect] cannot run on a protocol object as
    [IRCProtocol.__init__] builds it: whatever the certificate, the
    settings and the state of the backend, it raises [AttributeError] at
    the first attribute it reads, before the context is configured and
    the handshake made, calls nothing and leaves the backend as it is. *)
Theorem legacy_handle_connect_raises_attribute_error
    (env : tls_env) (b : backend) (w : world) :
  let r := IRCProtocol.handle_connect IRCProtocol.__init__ env (b, w) in
  result_of r = Raise AttributeError /\
  self_of r = b /\
  snd (snd r) = w /\
  notifications (skipn (List.length (trace w)) (trace_of r)) = [].
Proof.
  cbv zeta.
  assert (E : IRCProtocol.handle_connect IRCProtocol.__init__ env (b, w)
              = (Raise AttributeError, (b, w))) by reflexivity.
  rewrite E. unfold result_of, self_of, trace_of; simpl.
  rewrite skipn_all. auto.
Qed.

(** Even on an object that carried the legacy attributes, the branch that
    removes the PID file and exits would not be reached: with verification
    on the context checks the hostname, so a certificate that does not
    match the host makes the handshake itself fail, and the method closes
    the connection as for any failed handshake. *)
Lemma legacy_check_closes_on_mismatch
    (attrs : IRCProtocol.legacy_attrs) (env : tls_env)
    (b : backend) (w : world) :
  IRCProtocol.verify_ssl attrs = true ->
  IRCProtocol.ca_certs attrs = None \/ load_raises env = false ->
  cert_matches env (host b) = false ->
  IRCProtocol.handle_connect (IRCProtocol.mkProtocol (Some attrs)) env (b, w)
  = (Ret tt, (closed b, advance 0 (close_calls b) w)).
Proof.
  intros Hv Hca Hm.
  destruct attrs as [v ca], env as [hr cm cn lr pid ur].
  simpl in Hv, Hca, Hm. subst v.
  assert (Hfail : hr || (true && negb (cm (host b))) = true).
  { rewrite Hm. apply orb_true_r. }
  unfold IRCProtocol.handle_connect, IRCProtocol.legacy_of,
    IRCProtocol.wrap_socket, IRCProtocol.load_verify_locations,
    handshake_fails.
  destruct ca as [path|]; cbn -[handle_close orb andb negb];
    [destruct (String.eqb path "");
     [|destruct Hca as [Hca|Hca]; [discriminate Hca|subst lr]]|];
    cbn -[handle_close orb andb negb];
    unfold bind, try_except, get_self; cbv beta iota;
    change (fst (b, w)) with b; rewrite Hfail;
    cbn -[handle_close]; rewrite handle_close_closed; reflexivity.
Qed.
